(** * pubsubc: provisioning of Pub/Sub topics and subscriptions

    A shallow embedding of [main.go]: the descriptor mini-language read from
    the environment variables [PUBSUB_PROJECT1], [PUBSUB_PROJECT2], ... and
    the function [create] that turns one descriptor into a sequence of calls
    to the Pub/Sub client.

    The Pub/Sub service is an external collaborator.  It is modelled by an
    oracle that, given the calls issued so far and the call being attempted,
    either accepts the call or rejects it with an error text.  The program is
    written in a small state-and-error monad over a [World] that records the
    issued calls and what was written to standard output and standard
    error. *)

From Stdlib Require Import ZArith Ascii String DecimalString.
From Stdlib Require Import DecimalFacts DecimalZ.
From stdpp Require Import base option list strings gmap fin_maps.

Open Scope string_scope.
Open Scope Z_scope.
Open Scope list_scope.

(* ===================================================================== *)
(** ** Go library functions used by the program *)
(* ===================================================================== *)

(** [strings.Split(s, sep)].  The program only ever splits on the one-byte
    literals [","], [":"] and ["+"], so the separator is a byte.  The result
    is never empty: a string without the separator yields the string
    itself.  The index 0 that the program takes of every split is therefore
    always in range; it is written [nth 0 _ EmptyString] below. *)
Fixpoint Split (s : string) (sep : ascii) : list string :=
  match s with
  | EmptyString => [EmptyString]
  | String c s' =>
      if Ascii.eqb c sep then EmptyString :: Split s' sep
      else match Split s' sep with
           | x :: xs => String c x :: xs
           | [] => [String c EmptyString]
           end
  end.

(** [strings.Replace(s, old, new, n)] for a one-byte [old]: the first [n]
    occurrences of [old] are replaced by [new]; every occurrence when [n] is
    negative. *)
Fixpoint Replace (s : string) (old : ascii) (new : string) (n : Z) : string :=
  match s with
  | EmptyString => EmptyString
  | String c s' =>
      if n =? 0 then s
      else if Ascii.eqb c old then new +:+ Replace s' old new (n - 1)
      else String c (Replace s' old new n)
  end.

(** [has_byte c s]: the byte [c] occurs in [s]. *)
Fixpoint has_byte (c : ascii) (s : string) : bool :=
  match s with
  | EmptyString => false
  | String d s' => Ascii.eqb d c || has_byte c s'
  end.

(** Go's [int] is 64 bits wide on the platforms the tool is built for;
    [i++] wraps around. *)
Definition int_min : Z := - 2 ^ 63.
Definition int_max : Z := 2 ^ 63 - 1.
Definition int_incr (i : Z) : Z := if i =? int_max then int_min else i + 1.

(** The verb [%d] of [fmt.Sprintf]. *)
Definition itoa (i : Z) : string := NilZero.string_of_int (Z.to_int i).

(** The double quote, and the line feed that Go writes [\n] in a string
    literal. *)
Definition dquote : string := String (ascii_of_nat 34) EmptyString.
Definition LF : string := String (ascii_of_nat 10) EmptyString.

(** Text produced by the [fmt] package.  Formatting itself (the verbs [%q]
    and [%s]) is not interpreted: a formatted text is kept as its format and
    its parameters.  An [error] is represented by its message. *)
#[local] Unset Elimination Schemes.
Inductive Text : Type :=
  | Str (s : string)
  | Cat (a b : Text)
  | Sprintf (format : Text) (params : list Text).
#[local] Set Elimination Schemes.

Definition error : Type := Text.

(** [fmt.Errorf(format, params...)]. *)
Definition Errorf (format : string) (params : list Text) : error :=
  Sprintf (Str format) params.

(** The last parameter of a formatted error: the place where [create] puts
    the error it wraps. *)
Definition cause (e : error) : option Text :=
  match e with
  | Sprintf _ params => last params
  | _ => None
  end.

(* ===================================================================== *)
(** ** The Pub/Sub client *)
(* ===================================================================== *)

Record Client : Type := { client_project : string }.

Record Topic : Type := { topic_project : string; topic_id : string }.

(** The method [String] of a topic handle: the fully-qualified name of the
    topic. *)
Definition Topic_String (t : Topic) : string :=
  "projects/" +:+ topic_project t +:+ "/topics/" +:+ topic_id t.

Record PushConfig : Type := { Endpoint : string }.

Record DeadLetterPolicy : Type :=
  { DeadLetterTopic : string; MaxDeliveryAttempts : Z }.

Record SubscriptionConfig : Type :=
  { cfg_Topic : Topic;
    cfg_PushConfig : PushConfig;
    cfg_DeadLetterPolicy : option DeadLetterPolicy }.

(** The zero values Go gives to the fields a composite literal omits. *)
Definition no_push : PushConfig := {| Endpoint := EmptyString |}.

Inductive Call : Type :=
  | NewClient (projectID : string)
  | CreateTopic (c : Client) (topicID : string)
  | CreateSubscription (c : Client) (id : string) (cfg : SubscriptionConfig)
  | Close (c : Client).

(** The service: [Some msg] when the attempted call fails with [msg], given
    the calls issued before it. *)
Definition Backend : Type := list Call → Call → option string.

(** [Topics] describes the topics of a project and their subscriptions. *)
Abbreviation Topics := (gmap string (list string)).

(** The order in which a [range] statement visits a map is not specified by
    Go and changes from one execution to the next.  The runtime's choice is a
    function of the map and of the history at the time of the statement. *)
Definition RangeOrder : Type :=
  list Call → Topics → list (string * list string).

Definition valid_range (range : RangeOrder) : Prop :=
  ∀ h (topics : Topics), range h topics ≡ₚ map_to_list topics.

(* ===================================================================== *)
(** ** The process and its effects *)
(* ===================================================================== *)

(** A process whose command line [flag.Parse] has accepted: [debug], [help]
    and [version] are the values of the three flags after parsing.  A
    command line that [flag.Parse] rejects ends the process inside the
    [flag] package, before [main] tests any flag; such runs are not part of
    this model, which starts where [flag.Parse] returns. *)
Record Process : Type :=
  { Args0 : string;                  (* os.Args[0] *)
    debug : bool;
    help : bool;
    version : bool;
    CommitHash : string;
    Revision : string;
    runtime_Version : string;
    environ : gmap string string }.

(** [os.Getenv]: the empty string when the variable is not set. *)
Definition Getenv (p : Process) (name : string) : string :=
  default EmptyString (environ p !! name).

Record World : Type :=
  { calls : list Call;
    stdout : list Text;
    stderr : list Text }.

Definition start : World := {| calls := []; stdout := []; stderr := [] |}.

Definition issue (c : Call) (w : World) : World :=
  {| calls := calls w ++ [c]; stdout := stdout w; stderr := stderr w |}.

Definition print (t : Text) (w : World) : World :=
  {| calls := calls w; stdout := stdout w ++ [t]; stderr := stderr w |}.

Definition eprint (t : Text) (w : World) : World :=
  {| calls := calls w; stdout := stdout w; stderr := stderr w ++ [t] |}.

Inductive Result (A : Type) : Type :=
  | Ok (a : A)
  | Err (e : error).
Arguments Ok {A} a.
Arguments Err {A} e.

Definition M (A : Type) : Type := World → Result A * World.

Definition ret {A} (a : A) : M A := λ w, (Ok a, w).

Definition bind {A B} (m : M A) (k : A → M B) : M B :=
  λ w, match m w with
       | (Ok a, w') => k a w'
       | (Err e, w') => (Err e, w')
       end.

(** [if err != nil { return wrap(err) }]. *)
Definition or_return {A} (m : M A) (wrap : error → error) : M A :=
  λ w, match m w with
       | (Ok a, w') => (Ok a, w')
       | (Err e, w') => (Err (wrap e), w')
       end.

Notation "'let*' x := m 'in' k" := (bind m (λ x, k))
  (at level 10, x name, m at level 100, k at level 200).
Notation "'run' m 'in' k" := (bind m (λ _, k))
  (at level 10, m at level 100, k at level 200).

(** A [for _, x := range l] loop whose body may [return] an error. *)
Fixpoint for_each {A} (body : A → M unit) (l : list A) : M unit :=
  match l with
  | [] => ret tt
  | x :: l' => run body x in for_each body l'
  end.

Section Program.

Variable backend : Backend.
Variable range : RangeOrder.
Variable proc : Process.

(** A call to the service, recorded in the world whatever its answer. *)
Definition call {A} (c : Call) (handle : A) : M A :=
  λ w, match backend (calls w) c with
       | None => (Ok handle, issue c w)
       | Some msg => (Err (Str msg), issue c w)
       end.

Definition pubsub_NewClient (projectID : string) : M Client :=
  call (NewClient projectID) {| client_project := projectID |}.

Definition client_CreateTopic (client : Client) (topicID : string) : M Topic :=
  call (CreateTopic client topicID)
       {| topic_project := client_project client; topic_id := topicID |}.

Definition client_CreateSubscription
    (client : Client) (id : string) (cfg : SubscriptionConfig) : M unit :=
  call (CreateSubscription client id cfg) tt.

(** [debugf] prints debugging information. *)
Definition debugf (format : string) (params : list Text) : M unit :=
  λ w, if debug proc
       then (Ok tt, print (Sprintf (Str (format +:+ LF)) params) w)
       else (Ok tt, w).

(** The body of the loop over the subscriptions of a topic. *)
Definition subscribe (client : Client) (projectID topicID : string)
    (topic : Topic) (subscription : string) : M unit :=
  let subscriptionParts := Split subscription "+" in
  let subscriptionID := nth 0 subscriptionParts EmptyString in
  if (1 <? length subscriptionParts)%nat then
    let pushEndpoint :=
      Replace (nth 1 subscriptionParts EmptyString) "|" ":" 1 in
    run debugf "    Creating push subscription %q with target %q"
               [Str subscriptionID; Str pushEndpoint] in
    let pushConfig := {| Endpoint := "http://" +:+ pushEndpoint |} in
    let* deadLetterPolicy :=
      (if (length subscriptionParts =? 3)%nat
          && String.eqb (nth 2 subscriptionParts EmptyString) "dlq"
       then
         let dlqTopicID := topicID +:+ "-dlq" in
         run debugf "      Creating DLQ topic %q" [Str dlqTopicID] in
         let* dlqTopic :=
           or_return (client_CreateTopic client dlqTopicID)
             (λ err, Errorf "      Unable to create dead letter topic for topic %q for project %q: %s"
                            [Str topicID; Str projectID; err]) in
         let dlqSubscriptionID := subscriptionID +:+ "-dlq" in
         run or_return
               (client_CreateSubscription client dlqSubscriptionID
                  {| cfg_Topic := dlqTopic;
                     cfg_PushConfig :=
                       {| Endpoint := "http://" +:+ pushEndpoint +:+ "/dead" |};
                     cfg_DeadLetterPolicy := None |})
               (λ err, Errorf "      Unable to create dead letter subscription for topic %q for project %q: %s"
                              [Str dlqTopicID; Str projectID; err]) in
         run debugf "      The topic %q on project %q has a dead letter policy"
                    [Str topicID; Str projectID] in
         ret (Some {| DeadLetterTopic := Topic_String dlqTopic;
                      MaxDeliveryAttempts := 5 |})
       else ret None) in
    or_return
      (client_CreateSubscription client subscriptionID
         {| cfg_Topic := topic;
            cfg_PushConfig := pushConfig;
            cfg_DeadLetterPolicy := deadLetterPolicy |})
      (λ err, Errorf "Unable to create push subscription %q on topic %q for project %q using push endpoint %q: %s"
                     [Str subscriptionID; Str topicID; Str projectID;
                      Str pushEndpoint; err])
  else
    or_return
      (client_CreateSubscription client subscriptionID
         {| cfg_Topic := topic;
            cfg_PushConfig := no_push;
            cfg_DeadLetterPolicy := None |})
      (λ err, Errorf "Unable to create subscription %q on topic %q for project %q: %s"
                     [Str subscriptionID; Str topicID; Str projectID; err]).

(** The body of the loop over the topics of a project. *)
Definition provision (client : Client) (projectID : string)
    (entry : string * list string) : M unit :=
  let topicID := fst entry in
  let subscriptions := snd entry in
  run debugf "  Creating topic %q" [Str topicID] in
  let* topic :=
    or_return (client_CreateTopic client topicID)
      (λ err, Errorf "Unable to create topic %q for project %q: %s"
                     [Str topicID; Str projectID; err]) in
  for_each (subscribe client projectID topicID topic) subscriptions.

(** [create] a connection to the PubSub service and create topics and
    subscriptions for the specified project ID.  The deferred
    [client.Close()] runs on every return once the client exists. *)
Definition create (projectID : string) (topics : Topics) : M unit :=
  λ w,
    match or_return (pubsub_NewClient projectID)
            (λ err, Errorf "Unable to create client to project %q: %s"
                           [Str projectID; err]) w with
    | (Err e, w1) => (Err e, w1)
    | (Ok client, w1) =>
        let rw :=
          (run debugf "Client connected with project ID %q" [Str projectID] in
           for_each (provision client projectID) (range (calls w1) topics)) w1
        in (fst rw, issue (Close client) (snd rw))
    end.

Definition versionString : Text :=
  Sprintf (Str "pubsubc - build %s (%s) running on %s")
          [Str (Revision proc); Str (CommitHash proc);
           Str (runtime_Version proc)].

(** [flag.Usage] as [main] sets it: the usage line on standard output,
    then [flag.PrintDefaults] on standard error. *)
Definition PrintDefaults : Text := Str "flag.PrintDefaults".

Definition Usage (w : World) : World :=
  eprint PrintDefaults
    (print (Sprintf (Str ("Usage: env PUBSUB_PROJECT1=" +:+ dquote
                         +:+ "project1,topic1,topic2:subscription1,topic3:subscription2+enpoint1"
                         +:+ dquote +:+ " %s" +:+ LF))
                    [Str (Args0 proc)]) w).

(** [fatalf] prints an error to stderr and exits. *)
Definition fatalf (format : Text) (params : list Text) (w : World) : Z * World :=
  (1, eprint (Sprintf (Cat (Str (Args0 proc +:+ ": ")) (Cat format (Str LF)))
                      params) w).

(** Separate the topicID from the subscription IDs. *)
Definition parse_topics (fields : list string) : Topics :=
  foldl (λ (topics : Topics) part,
           let topicParts := Split part ":" in
           <[nth 0 topicParts EmptyString := drop 1 topicParts]> topics)
        ∅ fields.

Definition currentEnv (i : Z) : string := "PUBSUB_PROJECT" +:+ itoa i.

(** The loop over the numbered environment variables.  The process ends
    with an exit status; [None] only when the fuel runs out. *)
Fixpoint cycle (fuel : nat) (i : Z) (w : World) : option (Z * World) :=
  match fuel with
  | O => None
  | S fuel' =>
      let env := Getenv proc (currentEnv i) in
      if String.eqb env EmptyString then
        if i =? 1 then Some (1, Usage w) else Some (0, w)
      else
        let parts := Split env "," in
        if (length parts <? 2)%nat then
          Some (fatalf (Str "%s: Expected at least 1 topic to be defined")
                       [Str (currentEnv i)] w)
        else
          match create (nth 0 parts EmptyString) (parse_topics (drop 1 parts)) w with
          | (Err err, w') => Some (fatalf err [] w')
          | (Ok _, w') => cycle fuel' (int_incr i) w'
          end
  end.

(** [main], from the return of [flag.Parse] on. *)
Definition main (fuel : nat) : option (Z * World) :=
  if help proc then Some (0, Usage start)
  else if version proc then Some (0, print (Cat versionString (Str LF)) start)
  else cycle fuel 1 start.

End Program.

(* ===================================================================== *)
(** ** What a descriptor stands for *)
(* ===================================================================== *)

(** The calls that one subscription token stands for, in the order in which
    they are issued when none of them fails. *)
Definition token_calls (client : Client) (topicID : string) (topic : Topic)
    (subscription : string) : list Call :=
  let parts := Split subscription "+" in
  let id := nth 0 parts EmptyString in
  match parts with
  | _ :: seg :: rest =>
      let endpoint := Replace seg "|" ":" 1 in
      let dlqTopic := {| topic_project := client_project client;
                         topic_id := topicID +:+ "-dlq" |} in
      match rest with
      | [third] =>
          if String.eqb third "dlq" then
            [ CreateTopic client (topicID +:+ "-dlq");
              CreateSubscription client (id +:+ "-dlq")
                {| cfg_Topic := dlqTopic;
                   cfg_PushConfig := {| Endpoint := "http://" +:+ endpoint +:+ "/dead" |};
                   cfg_DeadLetterPolicy := None |};
              CreateSubscription client id
                {| cfg_Topic := topic;
                   cfg_PushConfig := {| Endpoint := "http://" +:+ endpoint |};
                   cfg_DeadLetterPolicy :=
                     Some {| DeadLetterTopic := Topic_String dlqTopic;
                             MaxDeliveryAttempts := 5 |} |} ]
          else
            [ CreateSubscription client id
                {| cfg_Topic := topic;
                   cfg_PushConfig := {| Endpoint := "http://" +:+ endpoint |};
                   cfg_DeadLetterPolicy := None |} ]
      | _ =>
          [ CreateSubscription client id
              {| cfg_Topic := topic;
                 cfg_PushConfig := {| Endpoint := "http://" +:+ endpoint |};
                 cfg_DeadLetterPolicy := None |} ]
      end
  | _ =>
      [ CreateSubscription client id
          {| cfg_Topic := topic;
             cfg_PushConfig := no_push;
             cfg_DeadLetterPolicy := None |} ]
  end.

(** The handle [CreateTopic] returns for a topic of the client's project. *)
Definition handle (client : Client) (topicID : string) : Topic :=
  {| topic_project := client_project client; topic_id := topicID |}.

(** The calls of one topic with its subscriptions, and of a whole project
    whose topics are visited in the order [entries]. *)
Definition entry_calls (client : Client) (entry : string * list string)
    : list Call :=
  CreateTopic client (fst entry)
  :: flat_map (token_calls client (fst entry) (handle client (fst entry)))
              (snd entry).

Definition project_calls (client : Client)
    (entries : list (string * list string)) : list Call :=
  flat_map (entry_calls client) entries.

(** The identifier of the subscription a token names, and the topic
    identifier a topic field names. *)
Definition subscription_id (token : string) : string :=
  nth 0 (Split token "+") EmptyString.

Definition topic_of (field : string) : string :=
  nth 0 (Split field ":") EmptyString.

(** Observations on a sequence of calls: the topics created, and the
    subscriptions created on a given topic. *)
Definition created_topics (cs : list Call) : list string :=
  flat_map (λ c, match c with CreateTopic _ t => [t] | _ => [] end) cs.

Definition Topic_eqb (a b : Topic) : bool :=
  String.eqb (topic_project a) (topic_project b)
  && String.eqb (topic_id a) (topic_id b).

Definition subscriptions_on (t : Topic) (cs : list Call) : list string :=
  flat_map (λ c, match c with
                 | CreateSubscription _ id cfg =>
                     if Topic_eqb (cfg_Topic cfg) t then [id] else []
                 | _ => []
                 end) cs.

(** The calls that create a resource.  The client is asked for nothing
    else between [NewClient] and [Close]: the program never deletes. *)
Definition is_creation (c : Call) : bool :=
  match c with
  | CreateTopic _ _ | CreateSubscription _ _ _ => true
  | _ => false
  end.

(** A wrapper that keeps the wrapped error as its last parameter. *)
Definition wraps (wrap : error → error) : Prop :=
  ∀ e, cause (wrap e) = Some e.

Section Outcomes.

Variable backend : Backend.
Variable range : RangeOrder.
Variable proc : Process.

(** Every call of [cs] is accepted when they are issued one after the
    other from the history [h]. *)
Fixpoint accepted (h : list Call) (cs : list Call) : Prop :=
  match cs with
  | [] => True
  | c :: cs' => backend h c = None ∧ accepted (h ++ [c]) cs'
  end.

(** [m] follows the plan [plan]: it issues the calls of the plan in order
    and returns [v] when all are accepted; it stops at the first call that
    is rejected and returns an error whose cause is that rejection. *)
Definition Follows {A} (m : M A) (plan : list Call) (v : A) : Prop :=
  ∀ w,
    match m w with
    | (Ok a, w') =>
        a = v ∧ calls w' = calls w ++ plan ∧ accepted (calls w) plan
    | (Err e, w') =>
        ∃ pre c post msg,
          plan = pre ++ c :: post
          ∧ calls w' = calls w ++ pre ++ [c]
          ∧ accepted (calls w) pre
          ∧ backend (calls w ++ pre) c = Some msg
          ∧ cause e = Some (Str msg)
    end.

(** The outcome [out] of a computation started in [w] that attempts the
    single call [c]: the call is issued whatever the answer, and the
    computation succeeds exactly when the service accepts it. *)
Definition single_call (out : Result unit * World) (w : World) (c : Call)
    : Prop :=
  calls (snd out) = calls w ++ [c]
  ∧ (fst out = Ok tt ↔ backend (calls w) c = None).

(** The pass over the project of the environment variable number [i], and
    the world after the passes over the variables [1] to [n]. *)
Definition pass (i : Z) : M unit :=
  let parts := Split (Getenv proc (currentEnv i)) "," in
  create backend range proc (nth 0 parts EmptyString)
         (parse_topics (drop 1 parts)).

Definition after_passes (n : nat) (w : World) : World :=
  foldl (λ w' k, snd (pass (Z.of_nat k) w')) w (seq 1 n).

(** The variable number [i] holds a project with at least one topic
    field. *)
Definition well_formed (i : Z) : Prop :=
  Getenv proc (currentEnv i) ≠ EmptyString
  ∧ (2 ≤ length (Split (Getenv proc (currentEnv i)) ","))%nat.

(** The variables [1] to [n] are well formed and their passes, run one
    after the other from [w], all succeed. *)
Definition passes_succeed (n : nat) (w : World) : Prop :=
  ∀ k : nat, (k < n)%nat →
    well_formed (Z.of_nat (S k))
    ∧ fst (pass (Z.of_nat (S k)) (after_passes k w)) = Ok tt.

End Outcomes.

(* ===================================================================== *)
(** ** Sample inputs *)
(* ===================================================================== *)

(** A service that accepts every call, and one that rejects the creation of
    the topics named [bad]. *)
Definition accept_all : Backend := λ _ _, None.

Definition reject_topic (bad : string) : Backend :=
  λ _ c, match c with
         | CreateTopic _ t => if String.eqb t bad then Some "refused" else None
         | _ => None
         end.

(** Two choices the runtime can make for the order of a [range] over a
    map. *)
Definition ascending : RangeOrder := λ _ topics, map_to_list topics.
Definition descending : RangeOrder := λ _ topics, reverse (map_to_list topics).

(** A process started without flags in the given environment. *)
Definition process_with (env : list (string * string)) : Process :=
  {| Args0 := "pubsubc"; debug := false; help := false; version := false;
     CommitHash := "<not set>"; Revision := "<not set>";
     runtime_Version := "go1.13";
     environ := list_to_map env |}.

Definition client1 : Client := {| client_project := "proj1" |}.

(* ===================================================================== *)
(** ** Observations on whole runs *)
(* ===================================================================== *)

(** The process [p] started with the debug flag set to [b]. *)
Definition with_debug (b : bool) (p : Process) : Process :=
  {| Args0 := Args0 p; debug := b; help := help p; version := version p;
     CommitHash := CommitHash p; Revision := Revision p;
     runtime_Version := runtime_Version p; environ := environ p |}.

(** What a run shows apart from standard output: the exit status, the calls
    to the service and standard error. *)
Definition observable (r : option (Z * World))
    : option (Z * list Call * list Text) :=
  (λ out, (fst out, calls (snd out), stderr (snd out))) <$> r.

(** Two worlds that differ at most in what was written to standard
    output. *)
Definition same_but_stdout (w1 w2 : World) : Prop :=
  calls w1 = calls w2 ∧ stderr w1 = stderr w2.

(** Two computations that cannot be told apart but by standard output. *)
Definition Alike {A} (m1 m2 : M A) : Prop :=
  ∀ w1 w2, same_but_stdout w1 w2 →
    fst (m1 w1) = fst (m2 w2) ∧ same_but_stdout (snd (m1 w1)) (snd (m2 w2)).

(** A computation that leaves standard error alone, and standard output
    too when [quiet] holds. *)
Definition Silent {A} (quiet : bool) (m : M A) : Prop :=
  ∀ w, stderr (snd (m w)) = stderr w
       ∧ (quiet = true → stdout (snd (m w)) = stdout w).

Definition Client_eqb (a b : Client) : bool :=
  String.eqb (client_project a) (client_project b).

(** One step of the session discipline: [NewClient] opens a session when
    none is open, topics and subscriptions are created by the client of the
    open session, and [Close] ends it.  [None] is a violation. *)
Definition track (session : option Client) (c : Call)
    : option (option Client) :=
  match session, c with
  | None, NewClient p => Some (Some {| client_project := p |})
  | Some s, CreateTopic c' _ =>
      if Client_eqb c' s then Some session else None
  | Some s, CreateSubscription c' _ _ =>
      if Client_eqb c' s then Some session else None
  | Some s, Close c' => if Client_eqb c' s then Some None else None
  | _, _ => None
  end.

Fixpoint sessions (session : option Client) (cs : list Call)
    : option (option Client) :=
  match cs with
  | [] => Some session
  | c :: cs' =>
      match track session c with
      | Some session' => sessions session' cs'
      | None => None
      end
  end.

(** The calls [cs] respect the discipline and leave no session open. *)
Definition well_bracketed (cs : list Call) : Prop :=
  sessions None cs = Some None.

(** The call [c] concerns the project [p] only: it is made by a client of
    [p], on a topic of [p], and a dead-letter policy names a topic of
    [p]. *)
Definition concerns (p : string) (c : Call) : bool :=
  match c with
  | NewClient q => String.eqb q p
  | CreateTopic c' _ => String.eqb (client_project c') p
  | CreateSubscription c' _ cfg =>
      String.eqb (client_project c') p
      && String.eqb (topic_project (cfg_Topic cfg)) p
      && match cfg_DeadLetterPolicy cfg with
         | None => true
         | Some policy =>
             String.prefix ("projects/" +:+ p +:+ "/topics/")
                           (DeadLetterTopic policy)
         end
  | Close c' => String.eqb (client_project c') p
  end.

(** The entry a topic field contributes to the map of topics. *)
Definition entry_of (field : string) : string * list string :=
  (topic_of field, drop 1 (Split field ":")).

(** The token asks for a dead-letter pair: exactly three segments, the
    third being [dlq]. *)
Definition is_dlq_token (token : string) : bool :=
  let parts := Split token "+" in
  (length parts =? 3)%nat && String.eqb (nth 2 parts EmptyString) "dlq".

(** No token of the map asks for a dead-letter pair. *)
Definition dlq_free (topics : Topics) : Prop :=
  ∀ t tokens token,
    topics !! t = Some tokens → token ∈ tokens → is_dlq_token token = false.

(** A service that does not create a topic twice: the creation of a topic
    that an earlier call of the history already created is rejected. *)
Definition refuses_duplicates (backend : Backend) : Prop :=
  ∀ h client t,
    CreateTopic client t ∈ h → backend h (CreateTopic client t) ≠ None.

(** Such a service: it rejects the creation of a topic that occurs in the
    history and accepts everything else. *)
Definition no_duplicates : Backend :=
  λ h c,
    match c with
    | CreateTopic client t =>
        if existsb (λ c', match c' with
                          | CreateTopic client' t' =>
                              Client_eqb client' client && String.eqb t' t
                          | _ => false
                          end) h
        then Some "already exists" else None
    | _ => None
    end.

(** The error [e] is a formatted message, one of whose parameters is the
    project identifier [p] and the last of which is the message [msg] of the
    service. *)
Definition names_project (p : string) (e : error) : Prop :=
  ∃ format params msg,
    e = Errorf format params
    ∧ Str p ∈ params
    ∧ last params = Some (Str msg).

(** Every error that [m] returns satisfies [P]. *)
Definition Errs {A} (P : error → Prop) (m : M A) : Prop :=
  ∀ w e, fst (m w) = Err e → P e.

(* ===================================================================== *)
(** ** Facts about the library functions *)
(* ===================================================================== *)

Lemma append_empty (s : string) : EmptyString +:+ s = s.
Proof. reflexivity. Qed.

Lemma append_String (c : ascii) (a s : string) :
  String c a +:+ s = String c (a +:+ s).
Proof. reflexivity. Qed.

Lemma Split_cons (s : string) (sep : ascii) :
  ∃ x xs, Split s sep = x :: xs.
Proof.
  induction s as [|c s IH]; cbn; [by eauto|].
  destruct (Ascii.eqb c sep); [by eauto|].
  destruct IH as (x & xs & ->). eauto.
Qed.

Lemma Split_length_pos (s : string) (sep : ascii) :
  (1 ≤ length (Split s sep))%nat.
Proof. destruct (Split_cons s sep) as (x & xs & ->). cbn. lia. Qed.

Lemma Split_without (s : string) (sep : ascii) :
  has_byte sep s = false → Split s sep = [s].
Proof.
  induction s as [|c s IH]; cbn; [done|].
  intros [Hc Hs]%orb_false_iff. rewrite Hc, IH; done.
Qed.

Lemma Split_app (a b : string) (sep : ascii) :
  has_byte sep a = false →
  Split (a +:+ String sep b) sep = a :: Split b sep.
Proof.
  induction a as [|c a IH]; rewrite ?append_empty, ?append_String; cbn.
  - intros _. by rewrite Ascii.eqb_refl.
  - intros [Hc Ha]%orb_false_iff. rewrite Hc, IH; done.
Qed.

Lemma Split_single_iff (s : string) (sep : ascii) :
  (length (Split s sep) < 2)%nat ↔ has_byte sep s = false.
Proof.
  split.
  - induction s as [|c s IH]; cbn; [done|].
    destruct (Ascii.eqb c sep); cbn.
    + pose proof (Split_length_pos s sep). lia.
    + destruct (Split_cons s sep) as (x & xs & E). rewrite E in *. cbn in *.
      done.
  - intros H. rewrite (Split_without _ _ H). cbn. lia.
Qed.

Lemma Replace_zero (s : string) (old : ascii) (new : string) :
  Replace s old new 0 = s.
Proof. by destruct s. Qed.

Lemma Replace_without (s : string) (old : ascii) (new : string) (n : Z) :
  has_byte old s = false → Replace s old new n = s.
Proof.
  revert n. induction s as [|c s IH]; cbn; [done|].
  intros n [Hc Hs]%orb_false_iff. rewrite Hc.
  destruct (n =? 0); [done|]. by rewrite IH.
Qed.

Lemma Replace_first (a b : string) (old : ascii) (new : string) :
  has_byte old a = false →
  Replace (a +:+ String old b) old new 1 = a +:+ new +:+ b.
Proof.
  induction a as [|c a IH]; rewrite ?append_empty, ?append_String; cbn.
  - intros _. rewrite Ascii.eqb_refl. cbn. by rewrite Replace_zero.
  - intros [Hc Ha]%orb_false_iff. rewrite Hc, IH; done.
Qed.

(* ===================================================================== *)
(** ** One subscription token *)
(* ===================================================================== *)

Section Token.

Variable backend : Backend.
Variable proc : Process.

Lemma debugf_calls format params w :
  calls (snd (debugf proc format params w)) = calls w.
Proof. unfold debugf. by destruct (debug proc). Qed.

Lemma run_debugf {A} format params (k : M A) w :
  (run debugf proc format params in k) w
  = k (snd (debugf proc format params w)).
Proof. unfold bind, debugf. by destruct (debug proc). Qed.

(** A wrapped call: issued whatever the answer, an error exactly when the
    service rejects it. *)
Lemma wrapped_call {A} (c : Call) (v : A) (wrap : error → error) w :
  or_return (call backend c v) wrap w
  = match backend (calls w) c with
    | None => (Ok v, issue c w)
    | Some msg => (Err (wrap (Str msg)), issue c w)
    end.
Proof. unfold or_return, call. by destruct (backend (calls w) c). Qed.

Lemma single_call_intro (c : Call) (wrap : error → error) w w1 :
  calls w1 = calls w →
  single_call backend (or_return (call backend c tt) wrap w1) w c.
Proof.
  intros Hw1. unfold single_call. rewrite wrapped_call, Hw1.
  destruct (backend (calls w) c) eqn:Hb; cbn; rewrite ?Hw1; done.
Qed.

Lemma subscribe_plain client projectID topicID topic token sid w :
  Split token "+" = [sid] →
  single_call backend (subscribe backend proc client projectID topicID topic token w) w
    (CreateSubscription client sid
       {| cfg_Topic := topic; cfg_PushConfig := no_push;
          cfg_DeadLetterPolicy := None |}).
Proof.
  intros E. unfold subscribe. rewrite E. cbn.
  by apply single_call_intro.
Qed.

Lemma subscribe_push client projectID topicID topic token sid seg rest w :
  Split token "+" = sid :: seg :: rest →
  (length rest = 1%nat → nth 0 rest EmptyString ≠ "dlq") →
  single_call backend (subscribe backend proc client projectID topicID topic token w) w
    (CreateSubscription client sid
       {| cfg_Topic := topic;
          cfg_PushConfig :=
            {| Endpoint := "http://" +:+ Replace seg "|" ":" 1 |};
          cfg_DeadLetterPolicy := None |}).
Proof.
  intros E Hrest. unfold subscribe. rewrite E. cbv zeta.
  assert (Hno : ((length (sid :: seg :: rest) =? 3)%nat
                 && String.eqb (nth 2 (sid :: seg :: rest) EmptyString) "dlq")
                = false).
  { destruct rest as [|third [|]]; cbn; try done.
    apply String.eqb_neq. exact (Hrest eq_refl). }
  rewrite Hno. cbn [length Nat.ltb Nat.leb nth]. rewrite run_debugf.
  set (w1 := snd (debugf _ _ _ w)).
  assert (Hw1 : calls w1 = calls w) by apply debugf_calls.
  unfold bind at 1. cbn [ret].
  by apply single_call_intro.
Qed.

Lemma bind_wrapped {A B} (c : Call) (v : A) (wrap : error → error)
    (k : A → M B) w :
  (let* x := or_return (call backend c v) wrap in k x) w
  = match backend (calls w) c with
    | None => k v (issue c w)
    | Some msg => (Err (wrap (Str msg)), issue c w)
    end.
Proof. unfold bind. rewrite wrapped_call. by destruct (backend (calls w) c). Qed.

Lemma subscribe_dlq client projectID topicID topic token sid seg w :
  Split token "+" = [sid; seg; "dlq"] →
  let endpoint := Replace seg "|" ":" 1 in
  let dlqTopic := handle client (topicID +:+ "-dlq") in
  let c1 := CreateTopic client (topicID +:+ "-dlq") in
  let c2 := CreateSubscription client (sid +:+ "-dlq")
              {| cfg_Topic := dlqTopic;
                 cfg_PushConfig := {| Endpoint := "http://" +:+ endpoint +:+ "/dead" |};
                 cfg_DeadLetterPolicy := None |} in
  let c3 := CreateSubscription client sid
              {| cfg_Topic := topic;
                 cfg_PushConfig := {| Endpoint := "http://" +:+ endpoint |};
                 cfg_DeadLetterPolicy :=
                   Some {| DeadLetterTopic := Topic_String dlqTopic;
                           MaxDeliveryAttempts := 5 |} |} in
  let out := subscribe backend proc client projectID topicID topic token w in
  let h := calls w in
  calls (snd out)
  = h ++ match backend h c1 with
         | Some _ => [c1]
         | None => match backend (h ++ [c1]) c2 with
                   | Some _ => [c1; c2]
                   | None => [c1; c2; c3]
                   end
         end
  ∧ (fst out = Ok tt ↔ accepted backend h [c1; c2; c3]).
Proof.
  intros E endpoint dlqTopic c1 c2 c3. cbv zeta.
  remember (subscribe backend proc client projectID topicID topic token w)
    as out eqn:Hout.
  unfold subscribe in Hout. rewrite E in Hout. cbv zeta in Hout.
  cbn [length Nat.ltb Nat.leb nth Nat.eqb andb] in Hout.
  rewrite String.eqb_refl, run_debugf in Hout.
  set (w1 := snd (debugf _ _ _ w)) in Hout.
  assert (Hw1 : calls w1 = calls w) by apply debugf_calls.
  unfold bind at 1 in Hout. rewrite run_debugf in Hout.
  set (w2 := snd (debugf _ _ _ w1)) in Hout.
  assert (Hw2 : calls w2 = calls w).
  { unfold w2. by rewrite debugf_calls. }
  unfold client_CreateTopic, client_CreateSubscription in Hout.
  rewrite bind_wrapped, Hw2 in Hout.
  fold c1 endpoint (handle client (topicID +:+ "-dlq")) in Hout.
  fold dlqTopic in Hout.
  destruct (backend (calls w) c1) as [m1|] eqn:H1.
  { subst out. cbn. rewrite Hw2. split; [done|]. split; [done|].
    intros [? _]. congruence. }
  unfold bind at 1 in Hout. rewrite wrapped_call in Hout.
  cbn [calls issue] in Hout. rewrite Hw2 in Hout. fold c2 in Hout.
  destruct (backend (calls w ++ [c1]) c2) as [m2|] eqn:H2.
  { subst out. cbn. rewrite Hw2, <- app_assoc. split; [done|].
    split; [done|]. intros (_ & ? & _). congruence. }
  rewrite run_debugf in Hout. cbn [ret] in Hout.
  rewrite wrapped_call, debugf_calls in Hout.
  cbn [calls issue] in Hout. rewrite Hw2 in Hout. fold c3 in Hout.
  cbn [accepted].
  destruct (backend ((calls w ++ [c1]) ++ [c2]) c3) as [m3|] eqn:H3;
    subst out; cbn; rewrite debugf_calls; cbn; rewrite Hw2, <- !app_assoc;
    cbn.
  - split; [done|]. split; [done|]. intros (_ & _ & ? & _). congruence.
  - split; [done|]. split; done.
Qed.

End Token.

(** C2: a token of exactly three segments whose third is [dlq] makes the
    orchestrator create the dead-letter topic [<topicID>-dlq], then the
    dead-letter subscription [<subscriptionID>-dlq] bound to it with push
    endpoint [http://<host:port>/dead], and only then the primary
    subscription, bound to the original topic with push endpoint
    [http://<host:port>] and a dead-letter policy that names the dead-letter
    topic by its fully-qualified name with 5 delivery attempts.  The three
    calls are issued in that order up to the first one the service rejects,
    and the step succeeds exactly when all three are accepted. *)
Theorem dlq_token_creates_dead_letter_pair_first
    (backend : Backend) (proc : Process) (client : Client)
    (projectID topicID : string) (topic : Topic)
    (token sid host port : string) (w : World) :
  Split token "+" = [sid; host +:+ "|" +:+ port; "dlq"] →
  has_byte "|" host = false →
  let dlqTopic := handle client (topicID +:+ "-dlq") in
  let c1 := CreateTopic client (topicID +:+ "-dlq") in
  let c2 := CreateSubscription client (sid +:+ "-dlq")
              {| cfg_Topic := dlqTopic;
                 cfg_PushConfig :=
                   {| Endpoint := "http://" +:+ (host +:+ ":" +:+ port) +:+ "/dead" |};
                 cfg_DeadLetterPolicy := None |} in
  let c3 := CreateSubscription client sid
              {| cfg_Topic := topic;
                 cfg_PushConfig :=
                   {| Endpoint := "http://" +:+ (host +:+ ":" +:+ port) |};
                 cfg_DeadLetterPolicy :=
                   Some {| DeadLetterTopic :=
                             "projects/" +:+ client_project client
                             +:+ "/topics/" +:+ (topicID +:+ "-dlq");
                           MaxDeliveryAttempts := 5 |} |} in
  let out := subscribe backend proc client projectID topicID topic token w in
  calls (snd out)
  = calls w ++ match backend (calls w) c1 with
               | Some _ => [c1]
               | None => match backend (calls w ++ [c1]) c2 with
                         | Some _ => [c1; c2]
                         | None => [c1; c2; c3]
                         end
               end
  ∧ (fst out = Ok tt ↔ accepted backend (calls w) [c1; c2; c3]).
Proof.
  intros E Hhost. cbv zeta.
  pose proof (subscribe_dlq backend proc client projectID topicID topic
                token sid _ w E) as H.
  cbv zeta in H.
  change (host +:+ "|" +:+ port) with (host +:+ String "|" port) in H.
  rewrite (Replace_first host port "|" ":" Hhost) in H.
  exact H.
Qed.

Lemma dlq_token_creates_dead_letter_pair_first_witness :
  calls (snd (subscribe accept_all (process_with []) client1 "proj1" "topicA"
                (handle client1 "topicA") "sub1+host1|8080+dlq" start))
  = [ CreateTopic client1 "topicA-dlq";
      CreateSubscription client1 "sub1-dlq"
        {| cfg_Topic := handle client1 "topicA-dlq";
           cfg_PushConfig := {| Endpoint := "http://host1:8080/dead" |};
           cfg_DeadLetterPolicy := None |};
      CreateSubscription client1 "sub1"
        {| cfg_Topic := handle client1 "topicA";
           cfg_PushConfig := {| Endpoint := "http://host1:8080" |};
           cfg_DeadLetterPolicy :=
             Some {| DeadLetterTopic := "projects/proj1/topics/topicA-dlq";
                     MaxDeliveryAttempts := 5 |} |} ].
Proof.
  exact (proj1 (dlq_token_creates_dead_letter_pair_first
                  accept_all (process_with []) client1 "proj1" "topicA"
                  (handle client1 "topicA") "sub1+host1|8080+dlq"
                  "sub1" "host1" "8080" start eq_refl eq_refl)).
Defined.

(** C6: decomposition on [+] dispatches by segment count.  A token of one
    segment yields a single plain subscription bound to the topic, without
    push configuration; a token of two segments yields a single push
    subscription whose endpoint is [http://] followed by the second segment
    with its first [|] replaced by [:].  Only the first [|] is replaced: what
    follows it is kept as it is, and a segment without [|] is unchanged. *)
Theorem token_dispatch_by_segment_count
    (backend : Backend) (proc : Process) (client : Client)
    (projectID topicID : string) (topic : Topic)
    (token sid : string) (rest : list string) (w : World) :
  Split token "+" = sid :: rest →
  (length rest ≤ 1)%nat →
  single_call backend
    (subscribe backend proc client projectID topicID topic token w) w
    (CreateSubscription client sid
       {| cfg_Topic := topic;
          cfg_PushConfig :=
            match rest with
            | [] => no_push
            | seg :: _ => {| Endpoint := "http://" +:+ Replace seg "|" ":" 1 |}
            end;
          cfg_DeadLetterPolicy := None |})
  ∧ (∀ host port : string,
       has_byte "|" host = false →
       Replace (host +:+ "|" +:+ port) "|" ":" 1 = host +:+ ":" +:+ port)
  ∧ (∀ seg : string,
       has_byte "|" seg = false → Replace seg "|" ":" 1 = seg).
Proof.
  intros E Hlen. split; [|split].
  - destruct rest as [|seg [|]]; cbn in Hlen; [| |lia].
    + by apply subscribe_plain.
    + eapply subscribe_push; [exact E|]. cbn. lia.
  - intros host port Hhost. exact (Replace_first host port "|" ":" Hhost).
  - intros seg Hseg. by apply Replace_without.
Qed.

Lemma token_dispatch_by_segment_count_witness :
  single_call accept_all
    (subscribe accept_all (process_with []) client1 "proj1" "topicA"
       (handle client1 "topicA") "sub1+host1|8080" start) start
    (CreateSubscription client1 "sub1"
       {| cfg_Topic := handle client1 "topicA";
          cfg_PushConfig := {| Endpoint := "http://host1:8080" |};
          cfg_DeadLetterPolicy := None |}).
Proof.
  exact (proj1 (token_dispatch_by_segment_count
                  accept_all (process_with []) client1 "proj1" "topicA"
                  (handle client1 "topicA") "sub1+host1|8080" "sub1"
                  ["host1|8080"] start eq_refl (le_n 1))).
Defined.

(** C3, as the code has it: a token of exactly three segments whose third is
    not [dlq] raises no error of its own.  The third segment is ignored: the
    token yields a single push subscription with the endpoint of the second
    segment and no dead-letter policy, and no dead-letter topic or
    subscription is created. *)
Theorem third_segment_other_than_dlq_is_ignored
    (backend : Backend) (proc : Process) (client : Client)
    (projectID topicID : string) (topic : Topic)
    (token sid seg third : string) (w : World) :
  Split token "+" = [sid; seg; third] →
  third ≠ "dlq" →
  single_call backend
    (subscribe backend proc client projectID topicID topic token w) w
    (CreateSubscription client sid
       {| cfg_Topic := topic;
          cfg_PushConfig := {| Endpoint := "http://" +:+ Replace seg "|" ":" 1 |};
          cfg_DeadLetterPolicy := None |}).
Proof.
  intros E Hthird. eapply subscribe_push; [exact E|]. by intros _.
Qed.

Lemma third_segment_other_than_dlq_is_ignored_witness :
  single_call accept_all
    (subscribe accept_all (process_with []) client1 "proj1" "topicA"
       (handle client1 "topicA") "sub1+host1|8080+dlx" start) start
    (CreateSubscription client1 "sub1"
       {| cfg_Topic := handle client1 "topicA";
          cfg_PushConfig := {| Endpoint := "http://host1:8080" |};
          cfg_DeadLetterPolicy := None |}).
Proof.
  apply (third_segment_other_than_dlq_is_ignored
           accept_all (process_with []) client1 "proj1" "topicA"
           (handle client1 "topicA") "sub1+host1|8080+dlx"
           "sub1" "host1|8080" "dlx" start).
  - reflexivity.
  - discriminate.
Defined.

(** C3, as the claim states it, fails: the token [sub1+host1|8080+dlx] has
    three segments, its third is not [dlq], and yet the step returns without
    error after creating the subscription [sub1]. *)
Lemma third_segment_other_than_dlq_counterexample :
  let token := "sub1+host1|8080+dlx" in
  let out := subscribe accept_all (process_with []) client1 "proj1" "topicA"
               (handle client1 "topicA") token start in
  length (Split token "+") = 3%nat
  ∧ nth 2 (Split token "+") EmptyString ≠ "dlq"
  ∧ fst out = Ok tt
  ∧ calls (snd out)
    = [ CreateSubscription client1 "sub1"
          {| cfg_Topic := handle client1 "topicA";
             cfg_PushConfig := {| Endpoint := "http://host1:8080" |};
             cfg_DeadLetterPolicy := None |} ].
Proof. cbv zeta. split; [reflexivity|]. split; [discriminate|]. split; reflexivity. Qed.

(** C10: a token of four or more segments is an ordinary push subscription
    whose endpoint is the second segment.  The dead-letter branch needs
    exactly three segments, so whatever the third and later segments are,
    [dlq] included, the step issues the single call that creates the push
    subscription without dead-letter policy, and succeeds when the service
    accepts that call. *)
Theorem four_or_more_segments_is_plain_push
    (backend : Backend) (proc : Process) (client : Client)
    (projectID topicID : string) (topic : Topic)
    (token sid seg : string) (rest : list string) (w : World) :
  Split token "+" = sid :: seg :: rest →
  (2 ≤ length rest)%nat →
  single_call backend
    (subscribe backend proc client projectID topicID topic token w) w
    (CreateSubscription client sid
       {| cfg_Topic := topic;
          cfg_PushConfig := {| Endpoint := "http://" +:+ Replace seg "|" ":" 1 |};
          cfg_DeadLetterPolicy := None |}).
Proof.
  intros E Hlen. eapply subscribe_push; [exact E|]. lia.
Qed.

Lemma four_or_more_segments_is_plain_push_witness :
  single_call accept_all
    (subscribe accept_all (process_with []) client1 "proj1" "topicA"
       (handle client1 "topicA") "sub1+host1|8080+dlq+more" start) start
    (CreateSubscription client1 "sub1"
       {| cfg_Topic := handle client1 "topicA";
          cfg_PushConfig := {| Endpoint := "http://host1:8080" |};
          cfg_DeadLetterPolicy := None |}).
Proof.
  apply (four_or_more_segments_is_plain_push
           accept_all (process_with []) client1 "proj1" "topicA"
           (handle client1 "topicA") "sub1+host1|8080+dlq+more"
           "sub1" "host1|8080" ["dlq"; "more"] start).
  - reflexivity.
  - cbn. lia.
Defined.

(* ===================================================================== *)
(** ** Computations that follow a plan *)
(* ===================================================================== *)

Section Plans.

Variable backend : Backend.
Variable proc : Process.

Lemma accepted_app h cs1 cs2 :
  accepted backend h (cs1 ++ cs2)
  ↔ accepted backend h cs1 ∧ accepted backend (h ++ cs1) cs2.
Proof.
  revert h. induction cs1 as [|c cs1 IH]; intros h; cbn.
  - rewrite app_nil_r. tauto.
  - rewrite IH, <- app_assoc. cbn. tauto.
Qed.

Lemma Follows_ret {A} (a : A) : Follows backend (ret a) [] a.
Proof. intros w. cbn. by rewrite app_nil_r. Qed.

Lemma Follows_debugf format params :
  Follows backend (debugf proc format params) [] tt.
Proof.
  intros w. unfold debugf. destruct (debug proc); cbn;
    by rewrite app_nil_r.
Qed.

Lemma Follows_call {A} (c : Call) (v : A) (wrap : error → error) :
  wraps wrap → Follows backend (or_return (call backend c v) wrap) [c] v.
Proof.
  intros Hwrap w. rewrite wrapped_call.
  destruct (backend (calls w) c) as [msg|] eqn:Hb.
  - exists [], c, [], msg. rewrite app_nil_r. cbn. auto.
  - cbn. auto.
Qed.

Lemma Follows_bind {A B} (m : M A) (k : A → M B) p1 p2 v v' :
  Follows backend m p1 v →
  Follows backend (k v) p2 v' →
  Follows backend (bind m k) (p1 ++ p2) v'.
Proof.
  intros Hm Hk w. unfold bind. specialize (Hm w).
  destruct (m w) as [[a|e] w1].
  - destruct Hm as (-> & Hc1 & Ha1). specialize (Hk w1).
    destruct (k v w1) as [[b|e] w2].
    + destruct Hk as (-> & Hc2 & Ha2). rewrite Hc1 in Hc2, Ha2.
      rewrite Hc2, app_assoc, accepted_app. auto.
    + destruct Hk as (pre & c & post & msg & -> & Hc2 & Ha2 & Hb & He).
      rewrite Hc1 in Hc2, Ha2, Hb.
      exists (p1 ++ pre), c, post, msg.
      rewrite Hc2, accepted_app, <- !app_assoc. rewrite <- app_assoc in Hb.
      auto.
  - destruct Hm as (pre & c & post & msg & -> & Hc1 & Ha1 & Hb & He).
    exists pre, c, (post ++ p2), msg. rewrite <- app_assoc. cbn. auto.
Qed.

Lemma Follows_for_each {A} (body : A → M unit) (plan : A → list Call) l :
  (∀ x, Follows backend (body x) (plan x) tt) →
  Follows backend (for_each body l) (flat_map plan l) tt.
Proof.
  intros Hbody. induction l as [|x l IH]; cbn [for_each flat_map].
  - apply Follows_ret.
  - by apply Follows_bind with (v := tt).
Qed.

Lemma Follows_subscribe client projectID topicID topic token :
  Follows backend (subscribe backend proc client projectID topicID topic token)
          (token_calls client topicID topic token) tt.
Proof.
  unfold subscribe, token_calls.
  destruct (Split token "+") as [|sid [|seg rest]]; cbv zeta;
    cbn [length Nat.ltb Nat.leb nth].
  - by apply Follows_call.
  - by apply Follows_call.
  - apply (Follows_bind _ _ [] _ tt); [apply Follows_debugf|].
    destruct rest as [|third [|fourth rest]];
      cbn [length Nat.eqb andb nth].
    + apply (Follows_bind _ _ [] _ None); [apply Follows_ret|].
      by apply Follows_call.
    + destruct (String.eqb third "dlq").
      * match goal with
        | |- Follows _ _ [?c1; ?c2; ?c3] _ =>
            change [c1; c2; c3] with (([] ++ [c1] ++ [c2] ++ [] ++ []) ++ [c3])
        end.
        eapply Follows_bind.
        { eapply Follows_bind; [apply Follows_debugf|].
          eapply Follows_bind; [by apply Follows_call|].
          eapply Follows_bind; [by apply Follows_call|].
          eapply Follows_bind; [apply Follows_debugf|].
          apply Follows_ret. }
        by apply Follows_call.
      * apply (Follows_bind _ _ [] _ None); [apply Follows_ret|].
        by apply Follows_call.
    + apply (Follows_bind _ _ [] _ None); [apply Follows_ret|].
      by apply Follows_call.
Qed.

Lemma Follows_provision client projectID entry :
  Follows backend (provision backend proc client projectID entry)
          (entry_calls client entry) tt.
Proof.
  unfold provision, entry_calls. cbv zeta.
  apply (Follows_bind _ _ [] _ tt); [apply Follows_debugf|].
  change (CreateTopic client entry.1 :: ?l)
    with ([CreateTopic client entry.1] ++ l).
  eapply Follows_bind.
  - unfold client_CreateTopic. by apply Follows_call.
  - apply Follows_for_each. intros token. apply Follows_subscribe.
Qed.

End Plans.

(* ===================================================================== *)
(** ** One project pass *)
(* ===================================================================== *)

Lemma token_calls_creation client topicID topic token :
  forallb is_creation (token_calls client topicID topic token) = true.
Proof.
  unfold token_calls.
  destruct (Split token "+") as [|sid [|seg [|third [|fourth rest]]]];
    cbv zeta; try reflexivity.
  by destruct (String.eqb third "dlq").
Qed.

Lemma forallb_flat_map {A B} (p : B → bool) (f : A → list B) (l : list A) :
  (∀ x, forallb p (f x) = true) → forallb p (flat_map f l) = true.
Proof.
  intros Hf. induction l as [|x l IH]; cbn; [done|].
  by rewrite forallb_app, Hf, IH.
Qed.

Lemma project_calls_creation client entries :
  forallb is_creation (project_calls client entries) = true.
Proof.
  apply forallb_flat_map. intros [t tokens]. cbn.
  apply forallb_flat_map. intros token. apply token_calls_creation.
Qed.

Section Pass.

Variable backend : Backend.
Variable range : RangeOrder.
Variable proc : Process.

(** The outcome of [create]: nothing but [NewClient] when the client
    cannot be created; otherwise the plan of the project, in the order of
    the [range] over the map, up to the first rejected call, and then
    [Close]. *)
Lemma create_outcome projectID (topics : Topics) w :
  let client := {| client_project := projectID |} in
  let h := calls w ++ [NewClient projectID] in
  let plan := project_calls client (range h topics) in
  let out := create backend range proc projectID topics w in
  match backend (calls w) (NewClient projectID) with
  | Some msg =>
      out = (Err (Errorf "Unable to create client to project %q: %s"
                         [Str projectID; Str msg]),
             issue (NewClient projectID) w)
  | None =>
      match fst out with
      | Ok _ =>
          calls (snd out) = h ++ plan ++ [Close client]
          ∧ accepted backend h plan
      | Err e =>
          ∃ pre c post msg,
            plan = pre ++ c :: post
            ∧ calls (snd out) = h ++ (pre ++ [c]) ++ [Close client]
            ∧ accepted backend h pre
            ∧ backend (h ++ pre) c = Some msg
            ∧ cause e = Some (Str msg)
      end
  end.
Proof.
  cbv zeta. unfold create, pubsub_NewClient. rewrite wrapped_call.
  destruct (backend (calls w) (NewClient projectID)) as [msg|] eqn:Hb;
    [done|].
  cbn [calls issue fst snd].
  set (client := {| client_project := projectID |}).
  set (w1 := issue (NewClient projectID) w).
  set (h := calls w ++ [NewClient projectID]).
  assert (HF : Follows backend
                 (run debugf proc "Client connected with project ID %q"
                              [Str projectID]
                  in for_each (provision backend proc client projectID)
                              (range h topics))
                 ([] ++ project_calls client (range h topics)) tt).
  { eapply Follows_bind; [apply Follows_debugf|].
    apply Follows_for_each. intros entry. apply Follows_provision. }
  specialize (HF w1). cbn [app] in HF.
  match type of HF with
  | match ?t with _ => _ end => destruct t as [[u|e] w2]
  end; cbn [fst snd calls issue].
  - destruct HF as (_ & -> & Ha). by rewrite <- app_assoc.
  - destruct HF as (pre & c & post & msg & Hp & -> & Ha & Hm & He).
    exists pre, c, post, msg. rewrite <- !app_assoc. auto.
Qed.

End Pass.

(** C7: a project pass returns the first error it meets and stops there.
    When the client cannot be created, nothing else is attempted.
    Otherwise the calls of the pass are [NewClient], then creation calls
    only, then [Close]: the session is released on success and on early
    abort alike.  When the pass returns an error, the last creation call
    issued is the one the service rejected, every earlier one had been
    accepted and is left as it is (no call follows the rejected one but
    [Close]), and the error returned carries the rejection as its cause. *)
Theorem pass_returns_first_error_and_releases_session
    (backend : Backend) (range : RangeOrder) (proc : Process)
    (projectID : string) (topics : Topics) (w : World) :
  let client := {| client_project := projectID |} in
  let h := calls w ++ [NewClient projectID] in
  let out := create backend range proc projectID topics w in
  match backend (calls w) (NewClient projectID) with
  | Some msg =>
      fst out = Err (Errorf "Unable to create client to project %q: %s"
                            [Str projectID; Str msg])
      ∧ calls (snd out) = h
  | None =>
      ∃ issued,
        calls (snd out) = h ++ issued ++ [Close client]
        ∧ forallb is_creation issued = true
        ∧ match fst out with
          | Ok _ => accepted backend h issued
          | Err e =>
              ∃ earlier c msg,
                issued = earlier ++ [c]
                ∧ accepted backend h earlier
                ∧ backend (h ++ earlier) c = Some msg
                ∧ cause e = Some (Str msg)
          end
  end.
Proof.
  cbv zeta.
  pose proof (create_outcome backend range proc projectID topics w) as H.
  cbv zeta in H.
  destruct (backend (calls w) (NewClient projectID)) as [msg|].
  { by rewrite H. }
  pose proof (project_calls_creation {| client_project := projectID |}
                (range (calls w ++ [NewClient projectID]) topics)) as Hc.
  destruct (fst (create backend range proc projectID topics w)) as [u|e].
  - destruct H as [Hcalls Hacc]. eauto.
  - destruct H as (pre & c & post & msg & Hp & Hcalls & Hacc & Hb & He).
    exists (pre ++ [c]). split; [done|]. split.
    + rewrite Hp in Hc. rewrite forallb_app in Hc |- *.
      apply andb_true_iff in Hc as [Hpre Hpost]. cbn in Hpost.
      apply andb_true_iff in Hpost as [Hcc _]. rewrite Hpre. cbn.
      by rewrite Hcc.
    + eauto 10.
Qed.

(* ===================================================================== *)
(** ** The map of topics *)
(* ===================================================================== *)

Lemma parse_topics_snoc (fields : list string) (field : string) :
  parse_topics (fields ++ [field])
  = <[topic_of field := drop 1 (Split field ":")]> (parse_topics fields).
Proof. unfold parse_topics. by rewrite foldl_app. Qed.

Lemma parse_topics_domain (fields : list string) (t : string) :
  is_Some (parse_topics fields !! t) ↔ t ∈ topic_of <$> fields.
Proof.
  induction fields as [|field fields IH] using rev_ind.
  - unfold parse_topics. cbn. rewrite lookup_empty, elem_of_nil.
    split; [by intros [? ?]|done].
  - rewrite parse_topics_snoc, fmap_app, elem_of_app. cbn.
    rewrite list_elem_of_singleton.
    destruct (decide (topic_of field = t)) as [->|Hne].
    + rewrite lookup_insert_eq. split; [auto|eauto].
    + rewrite lookup_insert_ne by done. rewrite IH.
      split; [auto | intros [?|?]; [done | congruence]].
Qed.

(** A later field with the same topic identifier overwrites an earlier
    one: the entry of a topic is that of its last field. *)
Lemma parse_topics_last (before later : list string) (field : string) :
  topic_of field ∉ topic_of <$> later →
  parse_topics (before ++ field :: later) !! topic_of field
  = Some (drop 1 (Split field ":")).
Proof.
  induction later as [|x later IH] using rev_ind; intros Hnot.
  - rewrite parse_topics_snoc. apply lookup_insert_eq.
  - rewrite fmap_app, not_elem_of_app in Hnot. destruct Hnot as [Hl Hx].
    cbn in Hx. rewrite list_elem_of_singleton in Hx.
    replace (before ++ field :: later ++ [x])
      with ((before ++ field :: later) ++ [x])
      by (by rewrite <- app_assoc).
    rewrite parse_topics_snoc, lookup_insert_ne by done. by apply IH.
Qed.

Lemma append_neq (s x : string) : x ≠ EmptyString → s +:+ x ≠ s.
Proof.
  intros Hx. induction s as [|c s IH]; rewrite ?append_empty, ?append_String.
  - done.
  - intros [= H]. by apply IH.
Qed.

Lemma filter_all {A} (p : A → bool) (l : list A) :
  forallb p l = true → List.filter p l = l.
Proof.
  induction l as [|x l IH]; cbn; [done|].
  intros [Hx Hl]%andb_true_iff. by rewrite Hx, IH.
Qed.

Lemma subscriptions_on_app t cs1 cs2 :
  subscriptions_on t (cs1 ++ cs2)
  = subscriptions_on t cs1 ++ subscriptions_on t cs2.
Proof. unfold subscriptions_on. apply flat_map_app. Qed.

Lemma Topic_eqb_refl t : Topic_eqb t t = true.
Proof. unfold Topic_eqb. by rewrite !String.eqb_refl. Qed.

(** Among the calls of a token, exactly one creates a subscription on the
    topic itself: the one named by the first segment. *)
Lemma subscriptions_on_token client topicID token :
  subscriptions_on (handle client topicID)
    (token_calls client topicID (handle client topicID) token)
  = [subscription_id token].
Proof.
  unfold token_calls, subscription_id.
  destruct (Split token "+") as [|sid [|seg [|third [|fourth rest]]]];
    cbv zeta; cbn; rewrite ?Topic_eqb_refl; try done.
  destruct (String.eqb third "dlq"); cbn; rewrite ?Topic_eqb_refl; [|done].
  unfold Topic_eqb, handle. cbn. rewrite String.eqb_refl. cbn.
  assert (H : String.eqb (topicID +:+ "-dlq") topicID = false).
  { apply String.eqb_neq. by apply append_neq. }
  by rewrite H.
Qed.

Lemma subscriptions_on_tokens client topicID tokens :
  subscriptions_on (handle client topicID)
    (flat_map (token_calls client topicID (handle client topicID)) tokens)
  = subscription_id <$> tokens.
Proof.
  induction tokens as [|token tokens IH]; cbn [flat_map]; [done|].
  by rewrite subscriptions_on_app, subscriptions_on_token, IH.
Qed.

Section Creations.

Variable backend : Backend.
Variable range : RangeOrder.
Variable proc : Process.

(** The creation calls of a pass are a prefix of the plan of the project,
    and the whole plan when the pass succeeds. *)
Lemma create_creations projectID (topics : Topics) w :
  let client := {| client_project := projectID |} in
  let plan := project_calls client
                (range (calls w ++ [NewClient projectID]) topics) in
  let out := create backend range proc projectID topics w in
  ∃ new,
    calls (snd out) = calls w ++ new
    ∧ List.filter is_creation new `prefix_of` plan
    ∧ (fst out = Ok tt → List.filter is_creation new = plan).
Proof.
  cbv zeta.
  pose proof (create_outcome backend range proc projectID topics w) as H.
  cbv zeta in H.
  pose proof (project_calls_creation {| client_project := projectID |}
                (range (calls w ++ [NewClient projectID]) topics)) as Hc.
  destruct (backend (calls w) (NewClient projectID)) as [msg|].
  { rewrite H. exists [NewClient projectID]. cbn.
    split; [done|]. split; [apply prefix_nil|done]. }
  destruct (fst (create backend range proc projectID topics w)) as [u|e].
  - destruct H as [Hcalls _]. eexists. split.
    { rewrite Hcalls, <- app_assoc. reflexivity. }
    cbn. rewrite List.filter_app, (filter_all _ _ Hc). cbn.
    rewrite app_nil_r. done.
  - destruct H as (pre & c & post & msg & Hp & Hcalls & _).
    eexists. split.
    { rewrite Hcalls, <- app_assoc. reflexivity. }
    split; [|done]. cbn. rewrite Hp in Hc |- *.
    rewrite forallb_app in Hc. apply andb_true_iff in Hc as [Hpre Hpost].
    cbn in Hpost. apply andb_true_iff in Hpost as [Hcc _].
    rewrite !List.filter_app, (filter_all _ _ Hpre). cbn. rewrite Hcc.
    cbn. rewrite app_nil_r. apply prefix_app, prefix_cons, prefix_nil.
Qed.

End Creations.

Lemma prefix_drop_both {A} (n : nat) (l1 l2 : list A) :
  l1 `prefix_of` l2 → drop n l1 `prefix_of` drop n l2.
Proof.
  intros [k ->]. rewrite drop_app. by eexists.
Qed.

Lemma prefix_take_both {A} (n : nat) (l1 l2 : list A) :
  l1 `prefix_of` l2 → take n l1 `prefix_of` take n l2.
Proof.
  intros [k ->]. rewrite take_app. by eexists.
Qed.

Lemma subscriptions_on_prefix t cs1 cs2 :
  cs1 `prefix_of` cs2 →
  subscriptions_on t cs1 `prefix_of` subscriptions_on t cs2.
Proof.
  intros [k ->]. rewrite subscriptions_on_app. by eexists.
Qed.

(** The part of [before ++ c :: block ++ after] that falls in [block]. *)
Lemma block_of_plan {A} (before block after : list A) (c : A) :
  take (length block) (drop (S (length before)) (before ++ c :: block ++ after))
  = block.
Proof.
  replace (before ++ c :: block ++ after)
    with ((before ++ [c]) ++ block ++ after)
    by (by rewrite <- app_assoc).
  replace (S (length before)) with (length (before ++ [c]))
    by (rewrite length_app; cbn; lia).
  rewrite drop_app_length. by rewrite take_app_length.
Qed.

(** C9, as the code has it: the subscriptions of a topic field that
    reaches the map are created in the order of their tokens.  Take a topic
    field [topicID:token1:...:tokenN] that no later field of the same value
    overwrites, and let the range over the map visit the entries [visited],
    then the entry of [topicID], then the entries [later_visited].  The plan
    of the project is then the calls of [visited], the creation of
    [topicID], the calls of [token1], ..., [tokenN] in that order, and the
    calls of [later_visited]; the subscriptions that the calls of the tokens
    create on the topic are those named by the tokens, front to back.  The
    creation calls of the pass are a prefix of that plan, and the whole plan
    when the pass succeeds; so the subscriptions the pass creates on the
    topic, in the part of its calls that falls on the tokens, are a prefix
    of those named by the tokens, and all of them when the pass succeeds. *)
Theorem subscriptions_created_in_token_order
    (backend : Backend) (range : RangeOrder) (proc : Process)
    (projectID : string) (before later : list string)
    (field topicID : string) (tokens : list string) (w : World) :
  valid_range range →
  Split field ":" = topicID :: tokens →
  topicID ∉ topic_of <$> later →
  let client := {| client_project := projectID |} in
  let topic := handle client topicID in
  let topics := parse_topics (before ++ field :: later) in
  let out := create backend range proc projectID topics w in
  let block := flat_map (token_calls client topicID topic) tokens in
  ∃ visited later_visited new,
    range (calls w ++ [NewClient projectID]) topics
    = visited ++ (topicID, tokens) :: later_visited
    ∧ subscriptions_on topic block = subscription_id <$> tokens
    ∧ calls (snd out) = calls w ++ new
    ∧ List.filter is_creation new
      `prefix_of` project_calls client visited
                  ++ CreateTopic client topicID
                     :: block ++ project_calls client later_visited
    ∧ subscriptions_on topic
        (take (length block)
              (drop (S (length (project_calls client visited)))
                    (List.filter is_creation new)))
      `prefix_of` subscription_id <$> tokens
    ∧ (fst out = Ok tt →
       List.filter is_creation new
       = project_calls client visited
         ++ CreateTopic client topicID
            :: block ++ project_calls client later_visited
       ∧ subscriptions_on topic
           (take (length block)
                 (drop (S (length (project_calls client visited)))
                       (List.filter is_creation new)))
         = subscription_id <$> tokens).
Proof.
  intros Hrange Hfield Hlast. cbv zeta.
  set (client := {| client_project := projectID |}).
  set (topics := parse_topics (before ++ field :: later)).
  set (block := flat_map (token_calls client topicID (handle client topicID))
                         tokens).
  assert (Htopic : topic_of field = topicID).
  { unfold topic_of. by rewrite Hfield. }
  assert (Hentry : topics !! topicID = Some tokens).
  { unfold topics. rewrite <- Htopic.
    rewrite parse_topics_last by (by rewrite Htopic).
    by rewrite Hfield. }
  set (order := range (calls w ++ [NewClient projectID]) topics).
  assert (Hin : (topicID, tokens) ∈ order).
  { unfold order. rewrite (Hrange _ topics). by apply elem_of_map_to_list. }
  apply list_elem_of_split in Hin as (o1 & o2 & Horder).
  destruct (create_creations backend range proc projectID topics w)
    as (new & Hcalls & Hprefix & Hok).
  fold client order in Hprefix, Hok.
  assert (Hplan : project_calls client order
                  = project_calls client o1
                    ++ CreateTopic client topicID
                       :: block ++ project_calls client o2).
  { rewrite Horder. unfold project_calls. rewrite flat_map_app. done. }
  rewrite Hplan in Hprefix, Hok.
  assert (Hsubs : subscriptions_on (handle client topicID) block
                  = subscription_id <$> tokens)
    by apply subscriptions_on_tokens.
  exists o1, o2, new.
  split; [done|]. split; [done|]. split; [done|]. split; [done|]. split.
  - rewrite <- Hsubs. apply subscriptions_on_prefix.
    rewrite <- (block_of_plan (project_calls client o1) block
                  (project_calls client o2) (CreateTopic client topicID))
      at 2.
    by apply prefix_take_both, prefix_drop_both.
  - intros Hsuccess. specialize (Hok Hsuccess). split; [done|].
    by rewrite Hok, block_of_plan.
Qed.

Lemma subscriptions_created_in_token_order_witness :
  let client := {| client_project := "proj1" |} in
  let topic := handle client "topicA" in
  let topics :=
    parse_topics (["topicA:old"] ++ "topicA:sub1+host1|8080+dlq:sub2"
                  :: ["topicB:sub3"]) in
  let out := create accept_all ascending (process_with []) "proj1" topics
               start in
  let block := flat_map (token_calls client "topicA" topic)
                        ["sub1+host1|8080+dlq"; "sub2"] in
  ∃ visited later_visited new,
    ascending (calls start ++ [NewClient "proj1"]) topics
    = visited
      ++ ("topicA", ["sub1+host1|8080+dlq"; "sub2"]) :: later_visited
    ∧ subscriptions_on topic block
      = subscription_id <$> ["sub1+host1|8080+dlq"; "sub2"]
    ∧ calls (snd out) = calls start ++ new
    ∧ List.filter is_creation new
      `prefix_of` project_calls client visited
                  ++ CreateTopic client "topicA"
                     :: block ++ project_calls client later_visited
    ∧ subscriptions_on topic
        (take (length block)
              (drop (S (length (project_calls client visited)))
                    (List.filter is_creation new)))
      `prefix_of` subscription_id <$> ["sub1+host1|8080+dlq"; "sub2"]
    ∧ (fst out = Ok tt →
       List.filter is_creation new
       = project_calls client visited
         ++ CreateTopic client "topicA"
            :: block ++ project_calls client later_visited
       ∧ subscriptions_on topic
           (take (length block)
                 (drop (S (length (project_calls client visited)))
                       (List.filter is_creation new)))
         = subscription_id <$> ["sub1+host1|8080+dlq"; "sub2"]).
Proof.
  apply (subscriptions_created_in_token_order
           accept_all ascending (process_with []) "proj1"
           ["topicA:old"] ["topicB:sub3"]
           "topicA:sub1+host1|8080+dlq:sub2" "topicA"
           ["sub1+host1|8080+dlq"; "sub2"] start).
  - intros h topics. reflexivity.
  - reflexivity.
  - vm_compute. intros H. by repeat (inversion H as [|? ? ? H']; clear H; rename H' into H).
Defined.

(** C9, as the claim states it, fails for a topic field that a later field
    with the same topic identifier overwrites: for the fields
    [topicA:sub1,topicA:sub2] the pass succeeds and the only subscription
    created on [topicA] is [sub2]; the token [sub1] of the first field is
    never created. *)
Lemma overwritten_field_counterexample :
  let client := {| client_project := "proj1" |} in
  let fields := drop 1 (Split "proj1,topicA:sub1,topicA:sub2" ",") in
  let out := create accept_all ascending (process_with []) "proj1"
               (parse_topics fields) start in
  fields !! 0%nat = Some "topicA:sub1"
  ∧ Split "topicA:sub1" ":" = ["topicA"; "sub1"]
  ∧ fst out = Ok tt
  ∧ subscriptions_on (handle client "topicA") (calls (snd out)) = ["sub2"].
Proof.
  cbv zeta. split; [reflexivity|]. split; [reflexivity|].
  split; by vm_compute.
Qed.




(* ===================================================================== *)
(** ** The loop over the environment variables *)
(* ===================================================================== *)

Section Batch.

Variable backend : Backend.
Variable range : RangeOrder.
Variable proc : Process.

Lemma cycle_end fuel i w :
  Getenv proc (currentEnv i) = EmptyString →
  cycle backend range proc (S fuel) i w
  = Some (if i =? 1 then (1, Usage proc w) else (0, w)).
Proof. intros E. cbn [cycle]. rewrite E. cbn. by destruct (i =? 1). Qed.

Lemma cycle_malformed fuel i w :
  Getenv proc (currentEnv i) ≠ EmptyString →
  (length (Split (Getenv proc (currentEnv i)) ",") < 2)%nat →
  cycle backend range proc (S fuel) i w
  = Some (fatalf proc (Str "%s: Expected at least 1 topic to be defined")
                 [Str (currentEnv i)] w).
Proof.
  intros Hne Hlen. cbn [cycle]. cbv zeta.
  apply String.eqb_neq in Hne. rewrite Hne.
  apply Nat.ltb_lt in Hlen. by rewrite Hlen.
Qed.

Lemma cycle_pass fuel i w :
  well_formed proc i →
  cycle backend range proc (S fuel) i w
  = match pass backend range proc i w with
    | (Err err, w') => Some (fatalf proc err [] w')
    | (Ok _, w') => cycle backend range proc fuel (int_incr i) w'
    end.
Proof.
  intros [Hne Hlen]. cbn [cycle]. cbv zeta.
  apply String.eqb_neq in Hne. rewrite Hne.
  apply Nat.ltb_ge in Hlen. by rewrite Hlen.
Qed.

Lemma after_passes_S n w :
  after_passes backend range proc (S n) w
  = snd (pass backend range proc (Z.of_nat (S n))
              (after_passes backend range proc n w)).
Proof. unfold after_passes. by rewrite seq_S, foldl_app. Qed.

Lemma int_incr_small (n : nat) :
  Z.of_nat n < int_max → int_incr (Z.of_nat n) = Z.of_nat (S n).
Proof.
  intros Hn. unfold int_incr.
  destruct (Z.eqb_spec (Z.of_nat n) int_max); lia.
Qed.

(** While the passes succeed the loop goes on: after [n] of them it is at
    the variable number [n + 1]. *)
Lemma cycle_passes n fuel w :
  passes_succeed backend range proc n w →
  Z.of_nat n < int_max →
  cycle backend range proc (n + fuel) 1 w
  = cycle backend range proc fuel (Z.of_nat (S n))
          (after_passes backend range proc n w).
Proof.
  revert fuel. induction n as [|n IH]; intros fuel Hok Hn; [done|].
  replace (S n + fuel)%nat with (n + S fuel)%nat by lia.
  rewrite IH; [|intros k Hk; apply Hok; lia|lia].
  destruct (Hok n) as [Hwf Hpass]; [lia|].
  rewrite cycle_pass by done. rewrite after_passes_S.
  destruct (pass _ _ _ _ _) as [[u|e] w']; [|done]. cbn [snd].
  rewrite int_incr_small by lia. done.
Qed.

End Batch.

(** C8, as the code has it: the variables are read in increasing order up
    to the first empty or unset one.  When that is [PUBSUB_PROJECT1], usage
    is printed and the process exits with status 1 without any call to the
    service.  When it is the variable number [n + 1] with [n > 0], and every
    variable before it is well formed and its pass succeeds, the process
    ends with status 0 after the passes over exactly the variables [1] to
    [n]. *)
Theorem enumeration_stops_at_first_empty_variable
    (backend : Backend) (range : RangeOrder) (proc : Process)
    (n fuel : nat) :
  help proc = false →
  version proc = false →
  passes_succeed backend range proc n start →
  Getenv proc (currentEnv (Z.of_nat (S n))) = EmptyString →
  Z.of_nat n < int_max →
  (n < fuel)%nat →
  main backend range proc fuel
  = Some (if (n =? 0)%nat then (1, Usage proc start)
          else (0, after_passes backend range proc n start))
  ∧ calls (Usage proc start) = [].
Proof.
  intros Hhelp Hversion Hok Hend Hn Hfuel. split; [|done].
  unfold main. rewrite Hhelp, Hversion.
  replace fuel with (n + S (fuel - S n))%nat by lia.
  rewrite cycle_passes by done. rewrite cycle_end by done.
  destruct n as [|n]; [done|].
  destruct (Z.eqb_spec (Z.of_nat (S (S n))) 1); [lia|done].
Qed.

Lemma enumeration_stops_at_first_empty_variable_witness :
  let proc := process_with [("PUBSUB_PROJECT1", "proj1,topicA:sub1");
                            ("PUBSUB_PROJECT2", "proj2,topicB")] in
  main accept_all ascending proc 3
  = Some (0, after_passes accept_all ascending proc 2 start).
Proof.
  cbv zeta.
  refine (proj1 (enumeration_stops_at_first_empty_variable
                   accept_all ascending
                   (process_with [("PUBSUB_PROJECT1", "proj1,topicA:sub1");
                                  ("PUBSUB_PROJECT2", "proj2,topicB")])
                   2 3 eq_refl eq_refl _ eq_refl _ _)).
  - intros [|[|k]] Hk; [| |lia].
    + split; [split; [by vm_compute|vm_compute; lia]|by vm_compute].
    + split; [split; [by vm_compute|vm_compute; lia]|by vm_compute].
  - reflexivity.
  - lia.
Defined.

(** C8, as the claim states it, fails: with [PUBSUB_PROJECT1] set to a bare
    project identifier the first unset variable is number 2, and the
    process exits with status 1. *)
Lemma enumeration_counterexample :
  let proc := process_with [("PUBSUB_PROJECT1", "proj1")] in
  Getenv proc (currentEnv 1) ≠ EmptyString
  ∧ Getenv proc (currentEnv 2) = EmptyString
  ∧ ∀ fuel, fst <$> main accept_all ascending proc (S fuel) = Some 1.
Proof.
  cbv zeta. split; [by vm_compute|]. split; [by vm_compute|].
  intros fuel. by vm_compute.
Qed.

(** C1, as the code has it: an error of a project pass ends the whole
    batch.  When the passes over the variables [1] to [n] succeed and the
    pass over the variable number [n + 1] returns an error, that error is
    printed on standard error after the name of the program and the process
    exits with status 1.  The calls issued are those of the passes [1] to
    [n + 1]: no project of a later variable is attempted. *)
Theorem pass_error_ends_the_batch
    (backend : Backend) (range : RangeOrder) (proc : Process)
    (n fuel : nat) (e : error) :
  help proc = false →
  version proc = false →
  passes_succeed backend range proc n start →
  well_formed proc (Z.of_nat (S n)) →
  fst (pass backend range proc (Z.of_nat (S n))
            (after_passes backend range proc n start)) = Err e →
  Z.of_nat n < int_max →
  (n < fuel)%nat →
  main backend range proc fuel
  = Some (1, eprint (Sprintf (Cat (Str (Args0 proc +:+ ": "))
                                  (Cat e (Str LF))) [])
                    (after_passes backend range proc (S n) start)).
Proof.
  intros Hhelp Hversion Hok Hwf Herr Hn Hfuel.
  unfold main. rewrite Hhelp, Hversion.
  replace fuel with (n + S (fuel - S n))%nat by lia.
  rewrite cycle_passes by done. rewrite cycle_pass by done.
  rewrite after_passes_S.
  destruct (pass _ _ _ _ _) as [[u|e'] w']; cbn in Herr; [done|].
  by injection Herr as ->.
Qed.

Lemma pass_error_ends_the_batch_witness :
  let proc := process_with [("PUBSUB_PROJECT1", "proj1,topicA:sub1");
                            ("PUBSUB_PROJECT2", "proj2,topicB")] in
  main (reject_topic "topicA") ascending proc 2
  = Some (1, eprint (Sprintf (Cat (Str (Args0 proc +:+ ": "))
                                  (Cat (Errorf "Unable to create topic %q for project %q: %s"
                                               [Str "topicA"; Str "proj1"; Str "refused"])
                                       (Str LF))) [])
                    (after_passes (reject_topic "topicA") ascending proc 1 start)).
Proof.
  cbv zeta.
  refine (pass_error_ends_the_batch
            (reject_topic "topicA") ascending
            (process_with [("PUBSUB_PROJECT1", "proj1,topicA:sub1");
                           ("PUBSUB_PROJECT2", "proj2,topicB")])
            0 2 _ eq_refl eq_refl _ _ _ _ _).
  - intros k Hk. lia.
  - split; [by vm_compute|vm_compute; lia].
  - by vm_compute.
  - reflexivity.
  - lia.
Defined.

(** C1, as the claim states it, fails: when the creation of [topicA] is
    rejected in the first project, the process exits with status 1 and the
    project of [PUBSUB_PROJECT2] is never attempted, although that variable
    holds a well-formed project. *)
Lemma batch_continues_counterexample :
  let proc := process_with [("PUBSUB_PROJECT1", "proj1,topicA:sub1");
                            ("PUBSUB_PROJECT2", "proj2,topicB")] in
  let client := {| client_project := "proj1" |} in
  Getenv proc (currentEnv 2) = "proj2,topicB"
  ∧ ∀ fuel,
      (λ out, (fst out, calls (snd out)))
        <$> main (reject_topic "topicA") ascending proc (S fuel)
      = Some (1, [NewClient "proj1"; CreateTopic client "topicA"; Close client]).
Proof.
  cbv zeta. split; [reflexivity|]. intros fuel. by vm_compute.
Qed.

(** C5, as the code has it: a non-empty value without a comma, a bare
    project identifier, is fatal.  The message
    [Expected at least 1 topic to be defined] is printed on standard error
    for the variable and the process exits with status 1; no call to the
    service is issued for the value. *)
Theorem value_without_topic_is_fatal
    (backend : Backend) (range : RangeOrder) (proc : Process)
    (fuel : nat) (i : Z) (w : World) :
  Getenv proc (currentEnv i) ≠ EmptyString →
  (length (Split (Getenv proc (currentEnv i)) ",") < 2)%nat →
  ∃ w',
    cycle backend range proc (S fuel) i w = Some (1, w')
    ∧ calls w' = calls w
    ∧ stdout w' = stdout w
    ∧ stderr w'
      = stderr w
        ++ [Sprintf (Cat (Str (Args0 proc +:+ ": "))
                         (Cat (Str "%s: Expected at least 1 topic to be defined")
                              (Str LF)))
                    [Str (currentEnv i)]].
Proof.
  intros Hne Hlen. rewrite cycle_malformed by done.
  unfold fatalf. eexists. split; [reflexivity|]. done.
Qed.

Lemma value_without_topic_is_fatal_witness :
  ∃ w',
    cycle accept_all ascending
          (process_with [("PUBSUB_PROJECT1", "proj1")]) 1 1 start
    = Some (1, w')
    ∧ calls w' = calls start
    ∧ stdout w' = stdout start
    ∧ stderr w'
      = stderr start
        ++ [Sprintf (Cat (Str ("pubsubc" +:+ ": "))
                         (Cat (Str "%s: Expected at least 1 topic to be defined")
                              (Str LF)))
                    [Str (currentEnv 1)]].
Proof.
  apply (value_without_topic_is_fatal
           accept_all ascending
           (process_with [("PUBSUB_PROJECT1", "proj1")]) 0 1 start).
  - by vm_compute.
  - vm_compute. lia.
Defined.

(** C5, as the claim states it, fails for the empty value: its split on
    [,] has one field, yet an empty [PUBSUB_PROJECT2] is read as the end of
    the batch, and the process ends with status 0 and nothing on standard
    error. *)
Lemma empty_value_counterexample :
  let proc := process_with [("PUBSUB_PROJECT1", "proj1,topicA");
                            ("PUBSUB_PROJECT2", EmptyString)] in
  environ proc !! "PUBSUB_PROJECT2" = Some EmptyString
  ∧ (length (Split (Getenv proc (currentEnv 2)) ",") < 2)%nat
  ∧ ∀ fuel,
      (λ out, (fst out, stderr (snd out)))
        <$> main accept_all ascending proc (S (S fuel))
      = Some (0, []).
Proof.
  cbv zeta. split; [by vm_compute|]. split; [vm_compute; lia|].
  intros fuel. by vm_compute.
Qed.


(* ===================================================================== *)
(** ** Sample runs *)
(* ===================================================================== *)

(** The value [proj1,topicA:sub1]: one topic with one plain subscription. *)
Example run_plain_subscription :
  main accept_all ascending
       (process_with [("PUBSUB_PROJECT1", "proj1,topicA:sub1")]) 2
  = Some (0, {| calls :=
                  [ NewClient "proj1";
                    CreateTopic client1 "topicA";
                    CreateSubscription client1 "sub1"
                      {| cfg_Topic := handle client1 "topicA";
                         cfg_PushConfig := no_push;
                         cfg_DeadLetterPolicy := None |};
                    Close client1 ];
                stdout := [];
                stderr := [] |}).
Proof. by vm_compute. Qed.

(** A rejected topic aborts the pass: its subscription and the next topic
    are not attempted, the session is closed, and the error names the
    topic, the project and the cause. *)
Example run_rejected_topic :
  create (reject_topic "topicA") ascending (process_with []) "proj1"
         (parse_topics ["topicA:sub1"; "topicB"]) start
  = (Err (Errorf "Unable to create topic %q for project %q: %s"
                 [Str "topicA"; Str "proj1"; Str "refused"]),
     {| calls := [ NewClient "proj1"; CreateTopic client1 "topicA";
                   Close client1 ];
        stdout := [];
        stderr := [] |}).
Proof. by vm_compute. Qed.

(** Without [PUBSUB_PROJECT1] the usage is printed, the status is 1 and the
    service is never called. *)
Example run_without_projects :
  (λ out, (fst out, calls (snd out)))
    <$> main accept_all ascending (process_with []) 1
  = Some (1, []).
Proof. by vm_compute. Qed.


(* ===================================================================== *)
(** ** Debug output *)
(* ===================================================================== *)

Section Debug.

Variable backend : Backend.
Variable range : RangeOrder.
Variable p1 p2 : Process.

Lemma Alike_ret {A} (a : A) : Alike (ret a) (ret a).
Proof. by intros w1 w2 R. Qed.

Lemma Alike_bind {A B} (m1 m2 : M A) (k1 k2 : A → M B) :
  Alike m1 m2 → (∀ a, Alike (k1 a) (k2 a)) →
  Alike (bind m1 k1) (bind m2 k2).
Proof.
  intros Hm Hk w1 w2 R. unfold bind. destruct (Hm w1 w2 R) as [Hr R'].
  destruct (m1 w1) as [[a1|e1] w1'], (m2 w2) as [[a2|e2] w2'];
    cbn in Hr, R'; try discriminate.
  - injection Hr as ->. by apply Hk.
  - injection Hr as ->. done.
Qed.

Lemma Alike_debugf format params :
  Alike (debugf p1 format params) (debugf p2 format params).
Proof.
  intros w1 w2 R. unfold debugf.
  by destruct (debug p1), (debug p2).
Qed.

Lemma Alike_call {A} (c : Call) (v : A) (wrap : error → error) :
  Alike (or_return (call backend c v) wrap) (or_return (call backend c v) wrap).
Proof.
  intros w1 w2 [Hc He]. rewrite !wrapped_call, Hc.
  destruct (backend (calls w2) c); cbn; unfold same_but_stdout; cbn;
    by rewrite Hc, He.
Qed.

Lemma Alike_for_each {A} (b1 b2 : A → M unit) (l : list A) :
  (∀ x, Alike (b1 x) (b2 x)) → Alike (for_each b1 l) (for_each b2 l).
Proof.
  intros Hb. induction l as [|x l IH]; cbn [for_each].
  - apply Alike_ret.
  - apply Alike_bind; [apply Hb|]. by intros _.
Qed.

Lemma Alike_subscribe client projectID topicID topic token :
  Alike (subscribe backend p1 client projectID topicID topic token)
        (subscribe backend p2 client projectID topicID topic token).
Proof.
  unfold subscribe. cbv zeta.
  destruct (1 <? length (Split token "+"))%nat; [|apply Alike_call].
  apply Alike_bind; [apply Alike_debugf|]. intros _.
  apply Alike_bind; [|intros dlp; apply Alike_call].
  destruct (_ && _); [|apply Alike_ret].
  apply Alike_bind; [apply Alike_debugf|]. intros _.
  apply Alike_bind; [apply Alike_call|]. intros dlqTopic.
  apply Alike_bind; [apply Alike_call|]. intros _.
  apply Alike_bind; [apply Alike_debugf|]. intros _.
  apply Alike_ret.
Qed.

Lemma Alike_provision client projectID entry :
  Alike (provision backend p1 client projectID entry)
        (provision backend p2 client projectID entry).
Proof.
  unfold provision. cbv zeta.
  apply Alike_bind; [apply Alike_debugf|]. intros _.
  apply Alike_bind; [apply Alike_call|]. intros topic.
  apply Alike_for_each. intros token. apply Alike_subscribe.
Qed.

Lemma Alike_create projectID (topics : Topics) :
  Alike (create backend range p1 projectID topics)
        (create backend range p2 projectID topics).
Proof.
  intros w1 w2 R. unfold create, pubsub_NewClient.
  destruct (Alike_call (NewClient projectID)
              {| client_project := projectID |}
              (λ err, Errorf "Unable to create client to project %q: %s"
                             [Str projectID; err]) w1 w2 R) as [Hr R'].
  destruct (or_return _ _ w1) as [[c1|e1] w1'],
           (or_return _ _ w2) as [[c2|e2] w2'];
    cbn in Hr, R'; try discriminate.
  - injection Hr as ->. cbv zeta. cbn [fst snd].
    assert (Hbody : Alike
              (run debugf p1 "Client connected with project ID %q"
                          [Str projectID]
               in for_each (provision backend p1 c2 projectID)
                           (range (calls w1') topics))
              (run debugf p2 "Client connected with project ID %q"
                          [Str projectID]
               in for_each (provision backend p2 c2 projectID)
                           (range (calls w2') topics))).
    { destruct R' as [-> _]. apply Alike_bind; [apply Alike_debugf|].
      intros _. apply Alike_for_each. intros entry. apply Alike_provision. }
    destruct (Hbody w1' w2' R') as [Hr [Hc He]].
    split; [done|]. unfold same_but_stdout. cbn. by rewrite Hc, He.
  - injection Hr as ->. done.
Qed.

End Debug.

Lemma Alike_cycle backend range proc fuel i w1 w2 :
  same_but_stdout w1 w2 →
  observable (cycle backend range (with_debug true proc) fuel i w1)
  = observable (cycle backend range (with_debug false proc) fuel i w2).
Proof.
  revert i w1 w2. induction fuel as [|fuel IH]; intros i w1 w2 R; [done|].
  cbn [cycle]. cbv zeta.
  change (Getenv (with_debug true proc)) with (Getenv proc).
  change (Getenv (with_debug false proc)) with (Getenv proc).
  destruct (String.eqb _ _).
  { destruct R as [Hc He]. destruct (i =? 1); cbn; by rewrite Hc, He. }
  destruct (_ <? _)%nat.
  { destruct R as [Hc He]. cbn. by rewrite Hc, He. }
  destruct (Alike_create backend range (with_debug true proc)
              (with_debug false proc)
              (nth 0 (Split (Getenv proc (currentEnv i)) ",") EmptyString)
              (parse_topics (drop 1 (Split (Getenv proc (currentEnv i)) ",")))
              w1 w2 R) as [Hr R'].
  destruct (create _ _ (with_debug true proc) _ _ w1) as [[u1|e1] w1'],
           (create _ _ (with_debug false proc) _ _ w2) as [[u2|e2] w2'];
    cbn in Hr, R'; try discriminate.
  - by apply IH.
  - injection Hr as ->. destruct R' as [Hc He]. cbn. by rewrite Hc, He.
Qed.

(** X1: the debug flag changes nothing but standard output.  A run with
    [--debug] and the same run without it end with the same exit status
    after the same calls to the service and with the same text on standard
    error. *)
Theorem debug_only_affects_stdout
    (backend : Backend) (range : RangeOrder) (proc : Process) (fuel : nat) :
  observable (main backend range (with_debug true proc) fuel)
  = observable (main backend range (with_debug false proc) fuel).
Proof.
  unfold main. cbn [help version with_debug].
  destruct (help proc); [done|]. destruct (version proc); [done|].
  by apply Alike_cycle.
Qed.

Section Output.

Variable backend : Backend.
Variable range : RangeOrder.
Variable proc : Process.

Let quiet : bool := negb (debug proc).

Lemma Silent_ret {A} (a : A) : Silent quiet (ret a).
Proof. by intros w. Qed.

Lemma Silent_bind {A B} (m : M A) (k : A → M B) :
  Silent quiet m → (∀ a, Silent quiet (k a)) → Silent quiet (bind m k).
Proof.
  intros Hm Hk w. unfold bind. destruct (Hm w) as [He Ho].
  destruct (m w) as [[a|e] w']; cbn in He, Ho; [|done].
  destruct (Hk a w') as [He' Ho']. split; [congruence|].
  intros Hq. rewrite Ho', Ho; done.
Qed.

Lemma Silent_debugf format params : Silent quiet (debugf proc format params).
Proof.
  intros w. unfold debugf, quiet. by destruct (debug proc).
Qed.

Lemma Silent_call {A} (c : Call) (v : A) (wrap : error → error) :
  Silent quiet (or_return (call backend c v) wrap).
Proof. intros w. rewrite wrapped_call. by destruct (backend (calls w) c). Qed.

Lemma Silent_for_each {A} (body : A → M unit) (l : list A) :
  (∀ x, Silent quiet (body x)) → Silent quiet (for_each body l).
Proof.
  intros Hb. induction l as [|x l IH]; cbn [for_each].
  - apply Silent_ret.
  - apply Silent_bind; [apply Hb|]. by intros _.
Qed.

Lemma Silent_subscribe client projectID topicID topic token :
  Silent quiet (subscribe backend proc client projectID topicID topic token).
Proof.
  unfold subscribe. cbv zeta.
  destruct (1 <? length (Split token "+"))%nat; [|apply Silent_call].
  apply Silent_bind; [apply Silent_debugf|]. intros _.
  apply Silent_bind; [|intros dlp; apply Silent_call].
  destruct (_ && _); [|apply Silent_ret].
  apply Silent_bind; [apply Silent_debugf|]. intros _.
  apply Silent_bind; [apply Silent_call|]. intros dlqTopic.
  apply Silent_bind; [apply Silent_call|]. intros _.
  apply Silent_bind; [apply Silent_debugf|]. intros _.
  apply Silent_ret.
Qed.

Lemma Silent_create projectID (topics : Topics) :
  Silent quiet (create backend range proc projectID topics).
Proof.
  intros w. unfold create, pubsub_NewClient.
  destruct (Silent_call (NewClient projectID)
              {| client_project := projectID |}
              (λ err, Errorf "Unable to create client to project %q: %s"
                             [Str projectID; err]) w) as [He Ho].
  destruct (or_return _ _ w) as [[client|e] w1]; cbn in He, Ho; [|done].
  cbv zeta. cbn [snd stderr stdout issue].
  assert (Hbody : Silent quiet
            (run debugf proc "Client connected with project ID %q"
                        [Str projectID]
             in for_each (provision backend proc client projectID)
                         (range (calls w1) topics))).
  { apply Silent_bind; [apply Silent_debugf|]. intros _.
    apply Silent_for_each. intros entry. unfold provision. cbv zeta.
    apply Silent_bind; [apply Silent_debugf|]. intros _.
    apply Silent_bind; [apply Silent_call|]. intros topic.
    apply Silent_for_each. intros token. apply Silent_subscribe. }
  destruct (Hbody w1) as [He' Ho']. split; [congruence|].
  intros Hq. rewrite Ho', Ho; done.
Qed.

End Output.

(** X2: a project pass never writes to standard error, whatever the
    service answers: its errors are only returned.  Without [--debug] it
    writes nothing to standard output either. *)
Theorem pass_leaves_the_output_streams
    (backend : Backend) (range : RangeOrder) (proc : Process)
    (projectID : string) (topics : Topics) (w : World) :
  let out := create backend range proc projectID topics w in
  stderr (snd out) = stderr w
  ∧ (debug proc = false → stdout (snd out) = stdout w).
Proof.
  cbv zeta.
  destruct (Silent_create backend range proc projectID topics w) as [He Ho].
  split; [done|]. intros Hd. apply Ho. by rewrite Hd.
Qed.

Lemma pass_leaves_the_output_streams_witness :
  let out := create accept_all ascending (process_with []) "proj1"
               (parse_topics ["topicA:sub1+host1|8080+dlq"]) start in
  stdout (snd out) = stdout start.
Proof.
  exact (proj2 (pass_leaves_the_output_streams
                  accept_all ascending (process_with []) "proj1"
                  (parse_topics ["topicA:sub1+host1|8080+dlq"]) start)
               eq_refl).
Defined.

(* ===================================================================== *)
(** ** Exit status, termination *)
(* ===================================================================== *)




Lemma to_int_not_nil (z : Z) :
  Z.to_int z ≠ Decimal.Pos Decimal.Nil ∧ Z.to_int z ≠ Decimal.Neg Decimal.Nil.
Proof.
  assert (H : Z.to_int z = Decimal.norm (Z.to_int z)).
  { rewrite <- DecimalZ.to_of. by rewrite DecimalZ.of_to. }
  rewrite H. destruct (Z.to_int z) as [u|u]; cbn.
  - pose proof (DecimalFacts.unorm_nonnil u). split; congruence.
  - destruct (Decimal.nzhead u); split; congruence.
Qed.

Lemma itoa_inj (a b : Z) : itoa a = itoa b → a = b.
Proof.
  unfold itoa. intros H. apply DecimalZ.to_int_inj.
  destruct (to_int_not_nil a) as [Ha1 Ha2], (to_int_not_nil b) as [Hb1 Hb2].
  pose proof (NilZero.isi _ Ha1 Ha2) as Ia.
  pose proof (NilZero.isi _ Hb1 Hb2) as Ib.
  rewrite H in Ia. congruence.
Qed.

Lemma append_inj (p a b : string) : p +:+ a = p +:+ b → a = b.
Proof.
  induction p as [|c p IH]; rewrite ?append_empty, ?append_String; [done|].
  intros [= H]. by apply IH.
Qed.

(** X4: the names of the environment variables are pairwise distinct: two
    different indices never yield the same name [PUBSUB_PROJECT<i>], so no
    variable is read for two different indices. *)
Theorem currentEnv_injective (i j : Z) :
  i ≠ j → currentEnv i ≠ currentEnv j.
Proof.
  unfold currentEnv. intros Hij H. by apply append_inj, itoa_inj in H.
Qed.

Lemma currentEnv_injective_witness : currentEnv 1 ≠ currentEnv 10.
Proof. apply (currentEnv_injective 1 10). lia. Defined.

Lemma currentEnv_inj_nat (a b : nat) :
  1 + Z.of_nat a ≠ 1 + Z.of_nat b →
  currentEnv (1 + Z.of_nat a) ≠ currentEnv (1 + Z.of_nat b).
Proof.
  unfold currentEnv. intros Hab H. by apply append_inj, itoa_inj in H.
Qed.

Section Termination.

Variable backend : Backend.
Variable range : RangeOrder.
Variable proc : Process.

Lemma cycle_more_fuel fuel k i w r :
  cycle backend range proc fuel i w = Some r →
  cycle backend range proc (fuel + k) i w = Some r.
Proof.
  revert i w. induction fuel as [|fuel IH]; intros i w; [done|].
  cbn [cycle Nat.add]. cbv zeta. destruct (String.eqb _ _); [done|].
  destruct (_ <? _)%nat; [done|].
  destruct (create _ _ _ _ _ w) as [[u|e] w1]; [apply IH|done].
Qed.

(** The loop ends at the latest at the first unset variable ahead. *)
Lemma cycle_reaches_gap fuel (k : nat) i w :
  (k < fuel)%nat →
  Getenv proc (currentEnv (i + Z.of_nat k)) = EmptyString →
  i + Z.of_nat k ≤ int_max →
  is_Some (cycle backend range proc fuel i w).
Proof.
  revert k i w. induction fuel as [|fuel IH]; intros k i w Hk Hgap Hmax;
    [lia|].
  cbn [cycle]. cbv zeta.
  destruct (String.eqb _ _) eqn:Hi.
  { destruct (i =? 1); eauto. }
  destruct (_ <? _)%nat; [eauto|].
  destruct (create _ _ _ _ _ w) as [[u|e] w1]; [|eauto].
  destruct k as [|k].
  { rewrite Z.add_0_r in Hgap. rewrite Hgap in Hi. discriminate Hi. }
  assert (Hincr : int_incr i = i + 1).
  { unfold int_incr. destruct (Z.eqb_spec i int_max); lia. }
  rewrite Hincr. apply (IH k); [lia| |lia].
  replace (i + 1 + Z.of_nat k) with (i + Z.of_nat (S k)) by lia. done.
Qed.

(** The environment is finite: among the first [size + 1] names one is
    unset. *)
Lemma unset_variable_exists :
  ∃ k : nat, (k ≤ size (environ proc))%nat
    ∧ Getenv proc (currentEnv (1 + Z.of_nat k)) = EmptyString.
Proof.
  set (n := size (environ proc)).
  set (name := λ k : nat, currentEnv (1 + Z.of_nat k)).
  destruct (decide (Exists (λ k, Getenv proc (name k) = EmptyString)
                           (seq 0 (S n)))) as [Hex|Hno].
  { apply Exists_exists in Hex as (k & Hk & Hgap).
    apply elem_of_seq in Hk. exists k. split; [lia|done]. }
  exfalso. apply not_Exists_Forall in Hno; [|intros k; apply _].
  assert (Hdom : ∀ k, k ∈ seq 0 (S n) → name k ∈ dom (environ proc)).
  { intros k Hk. rewrite Forall_forall in Hno. specialize (Hno k Hk).
    cbn in Hno. unfold Getenv in Hno. apply elem_of_dom.
    destruct (environ proc !! name k); [eauto|done]. }
  assert (Hnodup : NoDup (name <$> seq 0 (S n))).
  { apply NoDup_fmap_2; [|apply NoDup_seq].
    intros a b Hab. unfold name in Hab.
    destruct (decide (a = b)) as [|Hne]; [done|].
    exfalso. revert Hab. apply currentEnv_inj_nat. lia. }
  assert (Hsub : list_to_set (name <$> seq 0 (S n)) ⊆ dom (environ proc)).
  { intros x Hx. apply elem_of_list_to_set, list_elem_of_fmap in Hx
      as (k & -> & Hk). by apply Hdom. }
  apply subseteq_size in Hsub.
  rewrite size_list_to_set, length_fmap, length_seq, size_dom in Hsub
    by done.
  unfold n in Hsub. lia.
Qed.

End Termination.

(** X5: the loop over the environment variables always ends.  The
    environment is finite, so one of the first [size + 1] names is unset and
    the loop stops there at the latest: the run has one result, the same for
    every amount of fuel above the number of variables of the
    environment. *)
Theorem main_terminates
    (backend : Backend) (range : RangeOrder) (proc : Process) :
  Z.of_nat (size (environ proc)) < int_max →
  ∃ result, ∀ fuel : nat,
    (size (environ proc) < fuel)%nat →
    main backend range proc fuel = Some result.
Proof.
  intros Hsize. unfold main.
  destruct (help proc); [by eexists|].
  destruct (version proc); [by eexists|].
  destruct (unset_variable_exists proc) as (k & Hk & Hgap).
  destruct (cycle_reaches_gap backend range proc
              (S (size (environ proc))) k 1 start) as [result Hres];
    [lia|done|lia|].
  exists result. intros fuel Hfuel.
  replace fuel with (S (size (environ proc)) + (fuel - S (size (environ proc))))%nat
    by lia.
  by apply cycle_more_fuel.
Qed.

Lemma main_terminates_witness :
  let proc := process_with [("PUBSUB_PROJECT1", "proj1,topicA");
                            ("PUBSUB_PROJECT2", "proj2,topicB")] in
  ∃ result, ∀ fuel : nat,
    (size (environ proc) < fuel)%nat →
    main accept_all ascending proc fuel = Some result.
Proof.
  apply (main_terminates accept_all ascending
           (process_with [("PUBSUB_PROJECT1", "proj1,topicA");
                          ("PUBSUB_PROJECT2", "proj2,topicB")])).
  by vm_compute.
Defined.

(* ===================================================================== *)
(** ** Sessions and projects *)
(* ===================================================================== *)

Lemma prefix_append (a b : string) : String.prefix a (a +:+ b) = true.
Proof.
  induction a as [|c a IH]; rewrite ?append_empty, ?append_String; cbn.
  - by destruct b.
  - destruct (ascii_dec c c); [done|congruence].
Qed.

Lemma append_assoc (a b c : string) : (a +:+ b) +:+ c = a +:+ b +:+ c.
Proof.
  induction a as [|x a IH]; rewrite ?append_empty, ?append_String; [done|].
  by rewrite IH.
Qed.

Lemma token_calls_concern projectID topicID token :
  let client := {| client_project := projectID |} in
  forallb (concerns projectID)
          (token_calls client topicID (handle client topicID) token) = true.
Proof.
  cbv zeta. unfold token_calls.
  destruct (Split token "+") as [|sid [|seg [|third [|fourth rest]]]];
    cbv zeta; cbn; rewrite ?String.eqb_refl; try done.
  destruct (String.eqb third "dlq"); cbn; rewrite ?String.eqb_refl; [|done].
  cbn. unfold Topic_String. cbn.
  replace ("projects/" +:+ projectID +:+ "/topics/" +:+ topicID +:+ "-dlq")
    with (("projects/" +:+ projectID +:+ "/topics/") +:+ topicID +:+ "-dlq")
    by (by rewrite !append_assoc).
  by rewrite prefix_append.
Qed.

Lemma project_calls_concern projectID entries :
  forallb (concerns projectID)
          (project_calls {| client_project := projectID |} entries) = true.
Proof.
  apply forallb_flat_map. intros [t tokens]. cbn. rewrite String.eqb_refl.
  cbn. apply forallb_flat_map. intros token. apply token_calls_concern.
Qed.

(** X6: a pass concerns its own project only.  Every call it issues is
    made by the client of that project; every subscription is created on a
    topic of that project, and a dead-letter policy names a topic of that
    project. *)
Theorem pass_stays_in_its_project
    (backend : Backend) (range : RangeOrder) (proc : Process)
    (projectID : string) (topics : Topics) (w : World) :
  ∃ new,
    calls (snd (create backend range proc projectID topics w))
    = calls w ++ new
    ∧ forallb (concerns projectID) new = true.
Proof.
  pose proof (create_outcome backend range proc projectID topics w) as H.
  cbv zeta in H.
  pose proof (project_calls_concern projectID
                (range (calls w ++ [NewClient projectID]) topics)) as Hc.
  destruct (backend (calls w) (NewClient projectID)) as [msg|].
  { rewrite H. exists [NewClient projectID]. cbn.
    by rewrite String.eqb_refl. }
  destruct (fst (create backend range proc projectID topics w)) as [u|e].
  - destruct H as [-> _]. eexists. split.
    { rewrite <- app_assoc. reflexivity. }
    cbn. rewrite String.eqb_refl, forallb_app, Hc. cbn.
    by rewrite String.eqb_refl.
  - destruct H as (pre & c & post & msg & Hp & -> & _).
    eexists. split.
    { rewrite <- app_assoc. reflexivity. }
    rewrite Hp, forallb_app in Hc. apply andb_true_iff in Hc as [Hpre Hpost].
    cbn in Hpost. apply andb_true_iff in Hpost as [Hcc _].
    cbn. rewrite String.eqb_refl, !forallb_app, Hpre. cbn.
    by rewrite Hcc, String.eqb_refl.
Qed.

Lemma sessions_app session cs1 cs2 :
  sessions session (cs1 ++ cs2)
  = match sessions session cs1 with
    | Some session' => sessions session' cs2
    | None => None
    end.
Proof.
  revert session. induction cs1 as [|c cs1 IH]; intros session; cbn; [done|].
  destruct (track session c); [apply IH|done].
Qed.

(** Creation calls made by the client of the open session keep it open. *)
Lemma sessions_creations projectID cs :
  forallb is_creation cs = true →
  forallb (concerns projectID) cs = true →
  sessions (Some {| client_project := projectID |}) cs
  = Some (Some {| client_project := projectID |}).
Proof.
  induction cs as [|c cs IH]; cbn [forallb sessions]; [done|].
  intros [Hc Hcs]%andb_true_iff [Hp Hps]%andb_true_iff.
  destruct c as [q|c' t|c' id cfg|c']; try discriminate Hc; cbn in Hp |- *.
  - unfold Client_eqb. cbn. rewrite Hp. by apply IH.
  - apply andb_true_iff in Hp as [Hp _]. apply andb_true_iff in Hp as [Hp _].
    unfold Client_eqb. cbn. rewrite Hp. by apply IH.
Qed.

Section Sessions.

Variable backend : Backend.
Variable range : RangeOrder.
Variable proc : Process.

(** A pass started with no session open either fails to connect, or opens
    a session and leaves it closed. *)
Lemma create_sessions projectID (topics : Topics) w :
  well_bracketed (calls w) →
  let out := create backend range proc projectID topics w in
  match backend (calls w) (NewClient projectID) with
  | Some _ =>
      (∃ e, fst out = Err e) ∧ calls (snd out) = calls w ++ [NewClient projectID]
  | None => well_bracketed (calls (snd out))
  end.
Proof.
  intros Hw. cbv zeta.
  pose proof (create_outcome backend range proc projectID topics w) as H.
  cbv zeta in H.
  pose proof (project_calls_concern projectID
                (range (calls w ++ [NewClient projectID]) topics)) as Hc.
  pose proof (project_calls_creation {| client_project := projectID |}
                (range (calls w ++ [NewClient projectID]) topics)) as Hk.
  destruct (backend (calls w) (NewClient projectID)) as [msg|].
  { rewrite H. cbn. eauto. }
  assert (Hblock : ∀ cs,
            forallb is_creation cs = true →
            forallb (concerns projectID) cs = true →
            well_bracketed
              ((calls w ++ [NewClient projectID]) ++ cs
               ++ [Close {| client_project := projectID |}])).
  { intros cs H1 H2. unfold well_bracketed.
    rewrite <- app_assoc, sessions_app, Hw. cbn [app sessions track].
    rewrite sessions_app, (sessions_creations _ _ H1 H2). cbn.
    unfold Client_eqb. cbn. by rewrite String.eqb_refl. }
  destruct (fst (create backend range proc projectID topics w)) as [u|e].
  - destruct H as [-> _]. by apply Hblock.
  - destruct H as (pre & c & post & msg & Hp & -> & _).
    rewrite Hp, forallb_app in Hc, Hk.
    apply andb_true_iff in Hc as [Hc1 Hc2], Hk as [Hk1 Hk2].
    cbn in Hc2, Hk2.
    apply andb_true_iff in Hc2 as [Hc2 _], Hk2 as [Hk2 _].
    apply Hblock; rewrite forallb_app; cbn.
    + by rewrite Hk1, Hk2.
    + by rewrite Hc1, Hc2.
Qed.

Lemma cycle_sessions fuel i w code w' :
  well_bracketed (calls w) →
  cycle backend range proc fuel i w = Some (code, w') →
  well_bracketed (calls w')
  ∨ (code = 1
     ∧ ∃ cs p, calls w' = cs ++ [NewClient p]
               ∧ well_bracketed cs
               ∧ backend cs (NewClient p) ≠ None).
Proof.
  revert i w. induction fuel as [|fuel IH]; intros i w Hw; [done|].
  cbn [cycle]. cbv zeta. destruct (String.eqb _ _).
  { destruct (i =? 1); intros [= <- <-]; by left. }
  destruct (_ <? _)%nat.
  { intros [= <- <-]. by left. }
  pose proof (create_sessions
                (nth 0 (Split (Getenv proc (currentEnv i)) ",") EmptyString)
                (parse_topics (drop 1 (Split (Getenv proc (currentEnv i)) ",")))
                w Hw) as H.
  cbv zeta in H.
  destruct (backend (calls w) (NewClient _)) as [msg|] eqn:Hb.
  - destruct H as [[e He] Hcalls].
    destruct (create _ _ _ _ _ w) as [[u|e'] w1]; cbn in He, Hcalls;
      [discriminate He|].
    intros [= <- <-]. right. split; [done|].
    eexists _, _. split; [exact Hcalls|]. split; [done|]. by rewrite Hb.
  - destruct (create _ _ _ _ _ w) as [[u|e'] w1]; cbn in H.
    + by apply IH.
    + intros [= <- <-]. by left.
Qed.

End Sessions.

(** X7: sessions never overlap and none is left open.  In every run the
    calls follow the discipline [NewClient], creations by that client,
    [Close], one project after the other.  The only exception is a last
    [NewClient] that the service rejected: nothing follows it and the
    process exits with status 1. *)
Theorem sessions_are_bracketed
    (backend : Backend) (range : RangeOrder) (proc : Process)
    (fuel : nat) (code : Z) (w : World) :
  main backend range proc fuel = Some (code, w) →
  well_bracketed (calls w)
  ∨ (code = 1
     ∧ ∃ cs p, calls w = cs ++ [NewClient p]
               ∧ well_bracketed cs
               ∧ backend cs (NewClient p) ≠ None).
Proof.
  unfold main. destruct (help proc).
  { intros [= <- <-]. by left. }
  destruct (version proc).
  { intros [= <- <-]. by left. }
  by apply cycle_sessions.
Qed.

Lemma sessions_are_bracketed_witness :
  ∃ w,
    main accept_all ascending
         (process_with [("PUBSUB_PROJECT1", "proj1,topicA:sub1");
                        ("PUBSUB_PROJECT2", "proj2,topicB")]) 3
    = Some (0, w)
    ∧ well_bracketed (calls w).
Proof.
  eexists. split; [by vm_compute|].
  destruct (sessions_are_bracketed
              accept_all ascending
              (process_with [("PUBSUB_PROJECT1", "proj1,topicA:sub1");
                             ("PUBSUB_PROJECT2", "proj2,topicB")]) 3 0 _
              eq_refl) as [H|[H _]]; [exact H|discriminate H].
Defined.

(* ===================================================================== *)
(** ** The parser *)
(* ===================================================================== *)

Lemma parse_topics_list_to_map (fields : list string) :
  parse_topics fields = list_to_map (reverse (entry_of <$> fields)).
Proof.
  induction fields as [|field fields IH] using rev_ind; [done|].
  rewrite parse_topics_snoc, fmap_app, reverse_app. cbn. by rewrite IH.
Qed.

(** X8: when the topic identifiers of the fields are pairwise distinct, the
    order of the topic fields does not matter: any rearrangement of the
    fields yields the same map of topics. *)
Theorem parse_topics_ignores_field_order (fields fields' : list string) :
  NoDup (topic_of <$> fields) →
  fields ≡ₚ fields' →
  parse_topics fields = parse_topics fields'.
Proof.
  intros Hnodup Hperm. rewrite !parse_topics_list_to_map.
  apply list_to_map_proper.
  - rewrite reverse_Permutation, <- list_fmap_compose. exact Hnodup.
  - by rewrite !reverse_Permutation, Hperm.
Qed.

Lemma parse_topics_ignores_field_order_witness :
  parse_topics ["topicA:sub1"; "topicB"; "topicC:sub2:sub3"]
  = parse_topics ["topicC:sub2:sub3"; "topicA:sub1"; "topicB"].
Proof.
  apply parse_topics_ignores_field_order.
  - apply (bool_decide_unpack _). by vm_compute.
  - apply (Permutation_app_comm ["topicA:sub1"; "topicB"] ["topicC:sub2:sub3"]).
Defined.

Lemma last_field_of (fields : list string) (t : string) :
  t ∈ topic_of <$> fields →
  ∃ before field later,
    fields = before ++ field :: later
    ∧ topic_of field = t
    ∧ t ∉ topic_of <$> later.
Proof.
  induction fields as [|field fields IH] using rev_ind.
  - by intros ?%elem_of_nil.
  - rewrite fmap_app, elem_of_app. cbn. rewrite list_elem_of_singleton.
    destruct (decide (topic_of field = t)) as [Heq|Hne].
    + intros _. exists fields, field, []. split; [done|]. split; [done|].
      cbn. apply not_elem_of_nil.
    + intros [Hin|Heq]; [|congruence].
      destruct (IH Hin) as (before & f & later & -> & Hf & Hlater).
      exists before, f, (later ++ [field]). split.
      { by rewrite <- app_assoc. }
      split; [done|]. rewrite fmap_app, not_elem_of_app. split; [done|].
      cbn. rewrite list_elem_of_singleton. congruence.
Qed.

Lemma Split_topic_of (field : string) :
  Split field ":" = topic_of field :: drop 1 (Split field ":").
Proof.
  unfold topic_of. by destruct (Split_cons field ":") as (x & xs & ->).
Qed.

Lemma parse_topics_some (fields : list string) (t : string) tokens :
  parse_topics fields !! t = Some tokens →
  ∃ before field later,
    fields = before ++ field :: later
    ∧ Split field ":" = t :: tokens
    ∧ t ∉ topic_of <$> later.
Proof.
  intros Hsome.
  assert (Hin : t ∈ topic_of <$> fields).
  { apply parse_topics_domain. eauto. }
  destruct (last_field_of fields t Hin)
    as (before & field & later & -> & Hf & Hlater).
  exists before, field, later. split; [done|]. split; [|done].
  rewrite <- Hf in Hsome, Hlater.
  rewrite parse_topics_last in Hsome by done.
  injection Hsome as <-. rewrite <- Hf. apply Split_topic_of.
Qed.

(** X9: what the map of topics holds for a topic identifier.  The entry of
    [t] is the list of the segments that follow [t] in the last field whose
    first segment is [t]; an identifier that heads no field is not in the
    map. *)
Theorem parse_topics_lookup (fields : list string) (t : string) :
  (∀ tokens,
     parse_topics fields !! t = Some tokens
     ↔ ∃ before field later,
         fields = before ++ field :: later
         ∧ Split field ":" = t :: tokens
         ∧ t ∉ topic_of <$> later)
  ∧ (parse_topics fields !! t = None ↔ t ∉ topic_of <$> fields).
Proof.
  split.
  - intros tokens. split; [apply parse_topics_some|].
    intros (before & field & later & -> & Hsplit & Hlater).
    assert (Hf : topic_of field = t).
    { unfold topic_of. by rewrite Hsplit. }
    rewrite <- Hf in Hlater |- *. rewrite parse_topics_last by done.
    by rewrite Hsplit.
  - rewrite <- parse_topics_domain, eq_None_not_Some. done.
Qed.

Lemma Split_pieces_without (s : string) (sep : ascii) :
  Forall (λ x, has_byte sep x = false) (Split s sep).
Proof.
  induction s as [|c s IH]; cbn; [by repeat constructor|].
  destruct (Ascii.eqb c sep) eqn:Hc; [by constructor|].
  destruct (Split s sep) as [|x xs]; [by repeat constructor; cbn; rewrite Hc|].
  inversion IH as [|? ? Hx Hxs]; subst. constructor; [|done].
  cbn. by rewrite Hc.
Qed.

Lemma Split_pieces_keep (s : string) (sep c : ascii) :
  has_byte c s = false →
  Forall (λ x, has_byte c x = false) (Split s sep).
Proof.
  induction s as [|d s IH]; cbn; [by repeat constructor|].
  intros [Hd Hs]%orb_false_iff. specialize (IH Hs).
  destruct (Ascii.eqb d sep); [by constructor|].
  destruct (Split s sep) as [|x xs]; [by repeat constructor; cbn; rewrite Hd|].
  inversion IH as [|? ? Hx Hxs]; subst. constructor; [|done].
  cbn. by rewrite Hd.
Qed.

Lemma Forall_nth_string (P : string → Prop) (l : list string) (n : nat) :
  P EmptyString → Forall P l → P (nth n l EmptyString).
Proof.
  intros H0 Hl. revert n. induction Hl as [|x l Hx Hl IH]; intros [|n]; cbn;
    auto.
Qed.

(** X10: the identifiers the parser hands on never contain the delimiter
    they were cut at, nor an outer one.  For every value, the project
    identifier is free of [,]; every topic identifier of the map is free of
    [,] and [:]; and the subscription identifier of every token of the map
    is free of [,], [:] and [+]. *)
Theorem identifiers_are_delimiter_free (value : string) :
  let parts := Split value "," in
  has_byte "," (nth 0 parts EmptyString) = false
  ∧ ∀ t tokens,
      parse_topics (drop 1 parts) !! t = Some tokens →
      has_byte "," t = false
      ∧ has_byte ":" t = false
      ∧ ∀ token, token ∈ tokens →
          has_byte "," (subscription_id token) = false
          ∧ has_byte ":" (subscription_id token) = false
          ∧ has_byte "+" (subscription_id token) = false.
Proof.
  cbv zeta. pose proof (Split_pieces_without value ",") as Hparts. split.
  { by apply Forall_nth_string. }
  intros t tokens Hsome.
  apply parse_topics_some in Hsome
    as (before & field & later & Hfields & Hsplit & _).
  assert (Hfield : has_byte "," field = false).
  { apply Forall_drop with (n := 1%nat) in Hparts. rewrite Hfields in Hparts.
    rewrite Forall_app, Forall_cons in Hparts. tauto. }
  pose proof (Split_pieces_keep field ":" "," Hfield) as Hcomma.
  pose proof (Split_pieces_without field ":") as Hcolon.
  rewrite Hsplit in Hcomma, Hcolon.
  apply Forall_cons in Hcomma as [Hc1 Hc2], Hcolon as [Hk1 Hk2].
  split; [done|]. split; [done|].
  intros token Hin. rewrite Forall_forall in Hc2, Hk2.
  specialize (Hc2 token Hin). specialize (Hk2 token Hin). cbn in Hc2, Hk2.
  unfold subscription_id. repeat split.
  - apply Forall_nth_string; [done|]. by apply Split_pieces_keep.
  - apply Forall_nth_string; [done|]. by apply Split_pieces_keep.
  - apply Forall_nth_string; [done|]. apply Split_pieces_without.
Qed.

(* ===================================================================== *)
(** ** Dead-letter topics *)
(* ===================================================================== *)

Lemma token_calls_dlq client topicID topic token :
  is_dlq_token token = true →
  ∃ rest, token_calls client topicID topic token
          = CreateTopic client (topicID +:+ "-dlq") :: rest.
Proof.
  unfold is_dlq_token, token_calls. cbv zeta.
  destruct (Split token "+") as [|sid [|seg [|third [|fourth rest]]]];
    cbn; try done.
  intros ->. eauto.
Qed.

Lemma token_calls_not_dlq client topicID topic token :
  is_dlq_token token = false →
  created_topics (token_calls client topicID topic token) = [].
Proof.
  unfold is_dlq_token, token_calls. cbv zeta.
  destruct (Split token "+") as [|sid [|seg [|third [|fourth rest]]]];
    cbn; try done.
  by intros ->.
Qed.

Lemma created_topics_app cs1 cs2 :
  created_topics (cs1 ++ cs2) = created_topics cs1 ++ created_topics cs2.
Proof. unfold created_topics. apply flat_map_app. Qed.

Lemma accepted_twice backend h (c : Call) P Q R :
  backend (h ++ P ++ c :: Q) c ≠ None →
  ¬ accepted backend h (P ++ c :: Q ++ c :: R).
Proof.
  intros Hrej Hacc.
  replace (P ++ c :: Q ++ c :: R) with ((P ++ c :: Q) ++ c :: R) in Hacc
    by (by rewrite <- app_assoc).
  apply accepted_app in Hacc as [_ Hacc]. cbn in Hacc.
  destruct Hacc as [Hacc _]. done.
Qed.

(** X11: the dead-letter topic of a topic is not shared between its
    subscriptions: every token that ends in [+dlq] makes the pass create
    [<topicID>-dlq] again.  With a service that refuses to create a topic
    twice, a pass over a topic with two such tokens therefore fails,
    whatever else the project holds. *)
Theorem second_dead_letter_token_fails
    (backend : Backend) (range : RangeOrder) (proc : Process)
    (projectID topicID : string) (topics : Topics)
    (tokens1 tokens2 tokens3 : list string) (tokenA tokenB : string)
    (w : World) :
  refuses_duplicates backend →
  valid_range range →
  topics !! topicID = Some (tokens1 ++ tokenA :: tokens2 ++ tokenB :: tokens3) →
  is_dlq_token tokenA = true →
  is_dlq_token tokenB = true →
  ∃ e, fst (create backend range proc projectID topics w) = Err e.
Proof.
  intros Hdup Hrange Hentry HA HB.
  pose proof (create_outcome backend range proc projectID topics w) as H.
  cbv zeta in H.
  destruct (backend (calls w) (NewClient projectID)) as [msg|].
  { rewrite H. cbn. eauto. }
  destruct (fst (create backend range proc projectID topics w)) as [u|e];
    [exfalso|eauto].
  destruct H as [_ Hacc].
  set (client := {| client_project := projectID |}) in *.
  set (h := calls w ++ [NewClient projectID]) in *.
  assert (Hin : (topicID, tokens1 ++ tokenA :: tokens2 ++ tokenB :: tokens3)
                ∈ range h topics).
  { rewrite (Hrange h topics). by apply elem_of_map_to_list. }
  apply list_elem_of_split in Hin as (o1 & o2 & Horder).
  destruct (token_calls_dlq client topicID (handle client topicID) tokenA HA)
    as [restA EA].
  destruct (token_calls_dlq client topicID (handle client topicID) tokenB HB)
    as [restB EB].
  set (tc := token_calls client topicID (handle client topicID)) in *.
  set (c := CreateTopic client (topicID +:+ "-dlq")) in *.
  revert Hacc. rewrite Horder. unfold project_calls.
  rewrite flat_map_app. cbn [flat_map]. unfold entry_calls at 2.
  cbn [fst snd]. fold tc. rewrite !flat_map_app. cbn [flat_map].
  rewrite flat_map_app. cbn [flat_map]. rewrite EA, EB.
  set (A := flat_map (entry_calls client) o1).
  set (B := flat_map (entry_calls client) o2).
  replace (A ++ (CreateTopic client topicID
                 :: flat_map tc tokens1
                    ++ (c :: restA)
                    ++ flat_map tc tokens2 ++ (c :: restB) ++ flat_map tc tokens3)
             ++ B)
    with ((A ++ CreateTopic client topicID :: flat_map tc tokens1)
          ++ c :: (restA ++ flat_map tc tokens2)
          ++ c :: (restB ++ flat_map tc tokens3 ++ B)).
  2:{ repeat (rewrite <- app_assoc || rewrite <- app_comm_cons). done. }
  apply accepted_twice, Hdup.
  rewrite !elem_of_app. right. right. left.
Qed.

Lemma no_duplicates_refuses : refuses_duplicates no_duplicates.
Proof.
  intros h client t Hin. unfold no_duplicates.
  assert (Hex : existsb (λ c', match c' with
                               | CreateTopic client' t' =>
                                   Client_eqb client' client && String.eqb t' t
                               | _ => false
                               end) h = true).
  { apply existsb_exists. exists (CreateTopic client t). split.
    - by apply list_elem_of_In.
    - unfold Client_eqb. by rewrite !String.eqb_refl. }
  by rewrite Hex.
Qed.

Lemma second_dead_letter_token_fails_witness :
  ∃ e, fst (create no_duplicates ascending (process_with []) "proj1"
              (parse_topics ["topicA:sub1+host1|8080+dlq:sub2+host2|8080+dlq"])
              start) = Err e.
Proof.
  apply (second_dead_letter_token_fails
           no_duplicates ascending (process_with []) "proj1" "topicA"
           (parse_topics ["topicA:sub1+host1|8080+dlq:sub2+host2|8080+dlq"])
           [] [] [] "sub1+host1|8080+dlq" "sub2+host2|8080+dlq" start).
  - exact no_duplicates_refuses.
  - intros h topics. reflexivity.
  - by vm_compute.
  - reflexivity.
  - reflexivity.
Defined.

Lemma created_topics_tokens client topicID topic tokens :
  (∀ token, token ∈ tokens → is_dlq_token token = false) →
  created_topics (flat_map (token_calls client topicID topic) tokens) = [].
Proof.
  induction tokens as [|token tokens IH]; intros Htok; [done|].
  cbn [flat_map]. rewrite created_topics_app, token_calls_not_dlq.
  - apply IH. intros token' Hin. apply Htok. by right.
  - apply Htok. by left.
Qed.

Lemma created_topics_entry client (topics : Topics) (entry : string * list string) :
  dlq_free topics →
  topics !! fst entry = Some (snd entry) →
  created_topics (entry_calls client entry) = [fst entry].
Proof.
  intros Hfree Hentry. unfold entry_calls.
  change (CreateTopic client entry.1 :: ?l)
    with ([CreateTopic client entry.1] ++ l).
  rewrite created_topics_app, created_topics_tokens; [done|].
  intros token Hin. by apply (Hfree entry.1 entry.2).
Qed.

Lemma created_topics_project client (topics : Topics)
    (order : list (string * list string)) :
  dlq_free topics →
  (∀ entry, entry ∈ order → topics !! fst entry = Some (snd entry)) →
  created_topics (project_calls client order) = fst <$> order.
Proof.
  intros Hfree. unfold project_calls.
  induction order as [|entry order IH]; intros Hin; [done|].
  cbn [flat_map]. rewrite created_topics_app.
  rewrite (created_topics_entry _ topics) by (done || (apply Hin; by left)).
  cbn. f_equal. apply IH. intros e He. apply Hin. by right.
Qed.

(** X12: without dead-letter tokens a successful pass creates exactly the
    topics of the map.  When no token of the map ends in [+dlq] and the pass
    succeeds, the topics it creates are the topic identifiers of the map,
    each once, in the order of the range over the map. *)
Theorem pass_without_dlq_creates_the_topics_of_the_map
    (backend : Backend) (range : RangeOrder) (proc : Process)
    (projectID : string) (topics : Topics) (w : World) :
  valid_range range →
  dlq_free topics →
  fst (create backend range proc projectID topics w) = Ok tt →
  ∃ order,
    order ≡ₚ map_to_list topics
    ∧ NoDup (fst <$> order)
    ∧ created_topics (calls (snd (create backend range proc projectID topics w)))
      = created_topics (calls w) ++ (fst <$> order).
Proof.
  intros Hrange Hfree Hok.
  pose proof (create_outcome backend range proc projectID topics w) as H.
  cbv zeta in H.
  destruct (backend (calls w) (NewClient projectID)) as [msg|].
  { rewrite H in Hok. discriminate Hok. }
  rewrite Hok in H. destruct H as [Hcalls _].
  set (order := range (calls w ++ [NewClient projectID]) topics) in *.
  assert (Hperm : order ≡ₚ map_to_list topics) by apply Hrange.
  exists order. split; [done|]. split.
  { rewrite Hperm. apply NoDup_fst_map_to_list. }
  rewrite Hcalls, !created_topics_app. cbn [created_topics flat_map app].
  rewrite !app_nil_r. f_equal.
  apply (created_topics_project _ topics); [done|].
  intros [t tokens] Hin. rewrite Hperm in Hin.
  by apply elem_of_map_to_list in Hin.
Qed.

Lemma dlq_free_check (topics : Topics) :
  forallb (λ entry, forallb (λ token, negb (is_dlq_token token)) (snd entry))
          (map_to_list topics) = true →
  dlq_free topics.
Proof.
  intros Hall t tokens token Hentry Hin.
  rewrite forallb_forall in Hall.
  apply elem_of_map_to_list, list_elem_of_In in Hentry.
  specialize (Hall _ Hentry). cbn in Hall.
  rewrite forallb_forall in Hall. apply list_elem_of_In in Hin.
  specialize (Hall _ Hin). by apply negb_true_iff in Hall.
Qed.

Lemma pass_without_dlq_creates_the_topics_of_the_map_witness :
  let out := create accept_all descending (process_with []) "proj1"
               (parse_topics ["topicA:sub1+host1|8080"; "topicB"]) start in
  ∃ order,
    order ≡ₚ map_to_list (parse_topics ["topicA:sub1+host1|8080"; "topicB"])
    ∧ NoDup (fst <$> order)
    ∧ created_topics (calls (snd out))
      = created_topics (calls start) ++ (fst <$> order).
Proof.
  apply (pass_without_dlq_creates_the_topics_of_the_map
           accept_all descending (process_with []) "proj1"
           (parse_topics ["topicA:sub1+host1|8080"; "topicB"]) start).
  - intros h topics. apply reverse_Permutation.
  - apply dlq_free_check. by vm_compute.
  - by vm_compute.
Defined.

(* ===================================================================== *)
(** ** Errors *)
(* ===================================================================== *)

Section Errors.

Variable backend : Backend.
Variable range : RangeOrder.
Variable proc : Process.
Variable P : error → Prop.

Lemma Errs_ret {A} (a : A) : Errs P (ret a).
Proof. by intros w e. Qed.

Lemma Errs_debugf format params : Errs P (debugf proc format params).
Proof. intros w e. unfold debugf. by destruct (debug proc). Qed.

Lemma Errs_bind {A B} (m : M A) (k : A → M B) :
  Errs P m → (∀ a, Errs P (k a)) → Errs P (bind m k).
Proof.
  intros Hm Hk w e. unfold bind. specialize (Hm w).
  destruct (m w) as [[a|e'] w1]; cbn in Hm |- *.
  - apply Hk.
  - intros [= <-]. by apply Hm.
Qed.

Lemma Errs_call {A} (c : Call) (v : A) (wrap : error → error) :
  (∀ msg, P (wrap (Str msg))) →
  Errs P (or_return (call backend c v) wrap).
Proof.
  intros Hwrap w e. rewrite wrapped_call.
  destruct (backend (calls w) c); cbn; [|done]. intros [= <-]. apply Hwrap.
Qed.

Lemma Errs_for_each {A} (body : A → M unit) (l : list A) :
  (∀ x, Errs P (body x)) → Errs P (for_each body l).
Proof.
  intros Hb. induction l as [|x l IH]; cbn [for_each].
  - apply Errs_ret.
  - apply Errs_bind; [apply Hb|]. by intros _.
Qed.

End Errors.

Ltac names_project_tac :=
  intros msg; eexists _, _, msg; split; [reflexivity|];
  split; [set_solver|reflexivity].

Lemma Errs_subscribe backend proc client projectID topicID topic token :
  Errs (names_project projectID)
       (subscribe backend proc client projectID topicID topic token).
Proof.
  unfold subscribe. cbv zeta.
  destruct (1 <? length (Split token "+"))%nat;
    [|apply Errs_call; names_project_tac].
  apply Errs_bind; [apply Errs_debugf|]. intros _.
  apply Errs_bind; [|intros dlp; apply Errs_call; names_project_tac].
  destruct (_ && _); [|apply Errs_ret].
  apply Errs_bind; [apply Errs_debugf|]. intros _.
  apply Errs_bind; [apply Errs_call; names_project_tac|]. intros dlqTopic.
  apply Errs_bind; [apply Errs_call; names_project_tac|]. intros _.
  apply Errs_bind; [apply Errs_debugf|]. intros _.
  apply Errs_ret.
Qed.

(** X13: every error of a pass names its project.  Whatever call the
    service rejects, the error that [create] returns is a formatted message
    that has the project identifier among its parameters and the message of
    the service as its last parameter. *)
Theorem pass_errors_name_the_project
    (backend : Backend) (range : RangeOrder) (proc : Process)
    (projectID : string) (topics : Topics) (w : World) (e : error) :
  fst (create backend range proc projectID topics w) = Err e →
  names_project projectID e.
Proof.
  unfold create, pubsub_NewClient.
  pose proof (Errs_call backend (names_project projectID)
                (NewClient projectID) {| client_project := projectID |}
                (λ err, Errorf "Unable to create client to project %q: %s"
                               [Str projectID; err])) as Hnew.
  specialize (Hnew ltac:(names_project_tac) w).
  destruct (or_return _ _ w) as [[client|e'] w1]; cbn in Hnew |- *.
  2:{ intros [= <-]. by apply Hnew. }
  assert (Hbody : Errs (names_project projectID)
            (run debugf proc "Client connected with project ID %q"
                        [Str projectID]
             in for_each (provision backend proc client projectID)
                         (range (calls w1) topics))).
  { apply Errs_bind; [apply Errs_debugf|]. intros _.
    apply Errs_for_each. intros entry. unfold provision. cbv zeta.
    apply Errs_bind; [apply Errs_debugf|]. intros _.
    apply Errs_bind; [apply Errs_call; names_project_tac|]. intros topic.
    apply Errs_for_each. intros token. apply Errs_subscribe. }
  apply Hbody.
Qed.

Lemma pass_errors_name_the_project_witness :
  names_project "proj1"
    (Errorf "Unable to create topic %q for project %q: %s"
            [Str "topicA"; Str "proj1"; Str "refused"]).
Proof.
  apply (pass_errors_name_the_project
           (reject_topic "topicA") ascending (process_with []) "proj1"
           (parse_topics ["topicA:sub1"; "topicB"]) start).
  by vm_compute.
Defined.

(** X14: the order of the range over the map changes the order of the
    calls of a pass, not the calls themselves: two successful passes over
    the same map of topics, started from the same world under two different
    orders, issue the same calls up to a rearrangement. *)
Theorem range_order_only_permutes_the_calls
    (backend1 backend2 : Backend) (range1 range2 : RangeOrder)
    (proc1 proc2 : Process)
    (projectID : string) (topics : Topics) (w : World) :
  valid_range range1 →
  valid_range range2 →
  fst (create backend1 range1 proc1 projectID topics w) = Ok tt →
  fst (create backend2 range2 proc2 projectID topics w) = Ok tt →
  calls (snd (create backend1 range1 proc1 projectID topics w))
  ≡ₚ calls (snd (create backend2 range2 proc2 projectID topics w)).
Proof.
  intros Hr1 Hr2 Hok1 Hok2.
  pose proof (create_outcome backend1 range1 proc1 projectID topics w) as H1.
  pose proof (create_outcome backend2 range2 proc2 projectID topics w) as H2.
  cbv zeta in H1, H2.
  destruct (backend1 (calls w) (NewClient projectID)).
  { rewrite H1 in Hok1. discriminate Hok1. }
  destruct (backend2 (calls w) (NewClient projectID)).
  { rewrite H2 in Hok2. discriminate Hok2. }
  rewrite Hok1 in H1. rewrite Hok2 in H2.
  destruct H1 as [-> _], H2 as [-> _].
  apply Permutation_app_head, Permutation_app_tail.
  unfold project_calls. apply Permutation_flat_map.
  by rewrite (Hr1 _ topics), (Hr2 _ topics).
Qed.

Lemma range_order_only_permutes_the_calls_witness :
  let topics := parse_topics ["topicA:sub1"; "topicB:sub2+host1|8080+dlq"] in
  calls (snd (create accept_all ascending (process_with []) "proj1" topics start))
  ≡ₚ calls (snd (create accept_all descending (process_with []) "proj1" topics start)).
Proof.
  apply (range_order_only_permutes_the_calls
           accept_all accept_all ascending descending
           (process_with []) (process_with []) "proj1"
           (parse_topics ["topicA:sub1"; "topicB:sub2+host1|8080+dlq"]) start).
  - intros h topics. reflexivity.
  - intros h topics. apply reverse_Permutation.
  - by vm_compute.
  - by vm_compute.
Defined.
